(** * iotsend: a shallow embedding of [src/iotsend.c]

    The program parses its command line with getopt, optionally opens a
    file, rewrites the header string in place and hands header text and
    a descriptor to the IOTClient library.  Everything outside the
    program (the C library, the file system, the client library) is a
    field of the record [World]; everything the program changes is a
    field of the record [Machine]; everything it does to the outside is
    an [event] appended to the machine's trace. *)

From Stdlib Require Import ZArith Ascii String List Lia Bool.
From stdpp Require Import base list strings.
Import ListNotations.

Open Scope char_scope.

(** ** C strings *)

(** A C string is modelled by the characters in front of its NUL
    terminator.  [lit] turns a literal of the source into that list. *)
Abbreviation cstring := (list ascii).

Definition lit (s : string) : cstring := list_ascii_of_string s.

Definition strlen (s : cstring) : nat := length s.

(** ['\n'] *)
Definition NL : ascii := "010".

(** ** The header rewriting loop of [SendMessage]

<<
    for ( i=0; i<strlen(headers); i++ )
        if ( headers[i] == ';' )
            headers[i] = '\n';
>>
    The buffer is updated in place and [strlen] is evaluated again on
    every iteration, as in the source.  [fuel] bounds the number of
    iterations; [replace_semicolons] starts the loop with the length of
    the buffer, and [replace_loop_fuel] shows that this (or any larger
    amount) lets the loop run to its exit test. *)
Fixpoint replace_loop (fuel : nat) (i : nat) (headers : cstring) : cstring :=
  match fuel with
  | O => headers
  | S fuel' =>
      if decide (i < strlen headers) then
        if decide (headers !! i = Some ";")
        then replace_loop fuel' (S i) (<[i := NL]> headers)
        else replace_loop fuel' (S i) headers
      else headers
  end.

Definition replace_semicolons (headers : cstring) : cstring :=
  replace_loop (strlen headers) 0 headers.

(** The same loop with the counter as the source declares it, a 32-bit
    [int]: [None] when [i++] would leave the range of [int].  On a
    buffer of at most [INT_MAX] characters the two loops agree
    ([replace_loop_int_spec]); the kernel hands no longer string to a
    program. *)
Definition INT_MAX : Z := 2147483647.

Fixpoint replace_loop_int (fuel : nat) (i : Z) (headers : cstring)
  : option cstring :=
  match fuel with
  | O => Some headers
  | S fuel' =>
      if decide (i < Z.of_nat (strlen headers))%Z then
        let headers' :=
          if decide (headers !! Z.to_nat i = Some ";")
          then <[Z.to_nat i := NL]> headers else headers in
        if decide (i + 1 <= INT_MAX)%Z
        then replace_loop_int fuel' (i + 1) headers'
        else None
      else Some headers
  end.

(** What the loop is meant to compute, character by character. *)
Definition subst_semicolon (c : ascii) : ascii :=
  if decide (c = ";") then NL else c.

(** ** The outside world *)

Definition handle : Type := nat.

(** [EINVAL] of <errno.h>. *)
Definition EINVAL : Z := 22.

Definition STDIN_FILENO : Z := 0.

(** The header <iotclient/iotclient.h> is not part of the repository:
    the two constants the program takes from it, [EOK] and
    [MAX_IOT_MSG_SIZE], are fields of the world, next to the answers
    of the system calls and of the client library. *)
Record World : Type := {
  EOK : Z;
  MAX_IOT_MSG_SIZE : Z;
  (** getopt stops at the first operand instead of permuting *)
  posixly_correct : bool;
  (** whether the n-th call of strdup finds memory *)
  strdup_ok : nat -> bool;
  (** stat: the st_size of the path when the call returns 0 *)
  sys_stat : cstring -> option Z;
  (** open(path, O_RDONLY): a descriptor, or -1 *)
  sys_open : cstring -> Z;
  (** IOTCLIENT_Create: a handle, or NULL *)
  client_create : option handle;
  (** IOTCLIENT_Stream( handle, headers, fd ) *)
  client_stream : option handle -> cstring -> Z -> Z;
}.

(** What the program does to the outside, in the order it does it. *)
Inductive event : Type :=
| EvStderr (text : cstring)
| EvOpen (path : cstring) (fd : Z)
| EvClose (fd : Z)
| EvCreate (h : option handle)
| EvSetVerbose (h : handle) (v : bool)
| EvStream (h : option handle) (headers : cstring) (fd : Z) (res : Z)
| EvClientClose (h : handle).

#[global] Instance event_eq_dec : EqDecision event.
Proof. solve_decision. Defined.

(** ** The program state *)

(** [struct iotsendState].  A [char *] field that owns its string (both
    come from strdup) is the string itself, [None] for NULL. *)
Record IOTSendState : Type := {
  hIoTClient : option handle;
  verbose : bool;
  fileName : option cstring;
  headers : option cstring;
}.

(** The state of getopt between two calls.  The argument vector is kept
    as three segments, [argv0 :: go_done ++ go_operands ++ go_todo]:
    the elements already scanned as options, the operands skipped over
    (glibc moves them behind the options), and the elements not looked
    at yet.  [go_nextchar] is the rest of the option cluster being
    scanned. *)
Record GetoptState : Type := {
  go_argv0 : option cstring;
  go_done : list cstring;
  go_operands : list cstring;
  go_todo : list cstring;
  go_nextchar : cstring;
  optarg : option cstring;
}.

Record Machine : Type := {
  state : IOTSendState;
  gopt : GetoptState;
  strdup_calls : nat;
  trace : list event;
}.

(** A pointer to the state object: NULL, or the address of the one
    global [state]. *)
Inductive pIOTSendState : Type := NullState | AddrState.

(** ** A small state monad over the machine *)

Definition M (A : Type) : Type := Machine -> A * Machine.

Definition ret {A} (a : A) : M A := fun m => (a, m).

Definition bind {A B} (c : M A) (k : A -> M B) : M B :=
  fun m => let (a, m') := c m in k a m'.

Notation "'let*' x ':=' c 'in' k" := (bind c (fun x => k))
  (at level 10, x name, c at level 100, k at level 200).
Notation "c ';;' k" := (bind c (fun _ => k))
  (at level 100, k at level 200, right associativity).

Definition get_state : M IOTSendState := fun m => (state m, m).

Definition set_state (s : IOTSendState) : M unit := fun m =>
  (tt, {| state := s; gopt := gopt m;
          strdup_calls := strdup_calls m; trace := trace m |}).

Definition emit (e : event) : M unit := fun m =>
  (tt, {| state := state m; gopt := gopt m;
          strdup_calls := strdup_calls m; trace := trace m ++ [e] |}).

Definition when (b : bool) (c : M unit) : M unit :=
  if b then c else ret tt.

(** [fprintf( stderr, text )] *)
Definition fprintf_stderr (text : cstring) : M unit := emit (EvStderr text).

Definition set_headers (h : option cstring) (s : IOTSendState) : IOTSendState :=
  {| hIoTClient := hIoTClient s; verbose := verbose s;
     fileName := fileName s; headers := h |}.

Definition set_fileName (f : option cstring) (s : IOTSendState) : IOTSendState :=
  {| hIoTClient := hIoTClient s; verbose := verbose s;
     fileName := f; headers := headers s |}.

Definition set_verbose (v : bool) (s : IOTSendState) : IOTSendState :=
  {| hIoTClient := hIoTClient s; verbose := v;
     fileName := fileName s; headers := headers s |}.

Definition set_hIoTClient (h : option handle) (s : IOTSendState) : IOTSendState :=
  {| hIoTClient := h; verbose := verbose s;
     fileName := fileName s; headers := headers s |}.

(** ** SendMessage *)

Definition default_headers : cstring := lit "source:iotsend" ++ [NL; NL].

Definition size_warning : cstring :=
  lit "Warning: Max file size exceeded" ++ [NL] ++
  lit "File will be truncated!" ++ [NL].

Definition file_not_found : cstring := lit "File not found" ++ [NL].

Arguments default_headers : simpl never.
Arguments size_warning : simpl never.
Arguments file_not_found : simpl never.
Arguments replace_semicolons : simpl never.

Section Program.

Variable w : World.

(** [open( path, O_RDONLY )] *)
Definition open (path : cstring) : M Z :=
  let fd := sys_open w path in
  emit (EvOpen path fd) ;; ret fd.

Definition close (fd : Z) : M unit := emit (EvClose fd).

Definition IOTCLIENT_Stream (h : option handle) (hdrs : cstring) (fd : Z) : M Z :=
  let res := client_stream w h hdrs fd in
  emit (EvStream h hdrs fd res) ;; ret res.

Definition SendMessage (pState : pIOTSendState) : M Z :=
  match pState with
  | NullState => ret EINVAL
  | AddrState =>
      (* headers: the default literal, or the string of the state,
         rewritten in place *)
      let* s := get_state in
      let* hdrs :=
        match headers s with
        | Some h =>
            let h' := replace_semicolons h in
            set_state (set_headers (Some h') s) ;; ret h'
        | None => ret default_headers
        end in
      (* fd: standard input, or the file of the state *)
      let* s := get_state in
      let* fd :=
        match fileName s with
        | Some path =>
            match sys_stat w path with
            | Some st_size =>
                when (bool_decide (st_size > MAX_IOT_MSG_SIZE w)%Z)
                     (fprintf_stderr size_warning)
            | None => ret tt
            end ;;
            open path
        | None => ret STDIN_FILENO
        end in
      let* result :=
        if decide (fd <> -1)%Z then
          let* s := get_state in
          IOTCLIENT_Stream (hIoTClient s) hdrs fd
        else
          fprintf_stderr file_not_found ;; ret EINVAL in
      let* s := get_state in
      when (bool_decide (fileName s <> None) && bool_decide (fd <> -1)%Z)
           (close fd) ;;
      ret result
  end.

(** ** usage *)

Definition usage_text (cmdname : cstring) : cstring :=
  lit "usage: " ++ cmdname ++ lit " [-v] [-h] [<filename>]" ++ [NL] ++
  lit " [-h] : display this help" ++ [NL] ++
  lit " [-H headers]" ++ [NL] ++
  lit " [-v] : verbose output" ++ [NL].

Definition usage (cmdname : option cstring) : M unit :=
  match cmdname with
  | Some name => fprintf_stderr (usage_text name)
  | None => ret tt
  end.

(** ** getopt

    The C library's scanner, after glibc's [_getopt_internal_r] for an
    option string without a leading ['+'], ['-'] or [':'] and with
    [opterr] left at 1. *)

(** An element that is not an option: it does not start with ['-'], or
    it is ["-"] alone. *)
Definition NONOPTION_P (a : cstring) : bool :=
  match a with
  | "-" :: _ :: _ => false
  | _ => true
  end.

(** The operands in front of the next option element, and the rest. *)
Fixpoint skip_operands (l : list cstring) : list cstring * list cstring :=
  match l with
  | [] => ([], [])
  | a :: l' =>
      if NONOPTION_P a then
        let (skipped, rest) := skip_operands l' in (a :: skipped, rest)
      else ([], l)
  end.

(** [strchr]: the suffix of [s] that starts at the first [c]. *)
Fixpoint strchr (s : cstring) (c : ascii) : option cstring :=
  match s with
  | [] => None
  | x :: s' => if decide (x = c) then Some s else strchr s' c
  end.

Inductive optkind : Type := NoArg | RequiredArg | OptionalArg.

Definition opt_lookup (optstring : cstring) (c : ascii) : option optkind :=
  if bool_decide (c = ":") || bool_decide (c = ";") then None
  else
    match strchr optstring c with
    | None => None
    | Some (_ :: ":" :: ":" :: _) => Some OptionalArg
    | Some (_ :: ":" :: _) => Some RequiredArg
    | Some _ => Some NoArg
    end.

Definition getopt_init (argv : list cstring) : GetoptState :=
  {| go_argv0 := hd_error argv; go_done := []; go_operands := [];
     go_todo := tl argv; go_nextchar := []; optarg := None |}.

(** The argument vector as getopt leaves it, and its index [optind]. *)
Definition argV (g : GetoptState) : list cstring :=
  match go_argv0 g with
  | Some a0 => a0 :: go_done g ++ go_operands g ++ go_todo g
  | None => []
  end.

Definition argC (g : GetoptState) : nat := length (argV g).

Definition optind (g : GetoptState) : nat := S (length (go_done g)).

Definition progname (g : GetoptState) : cstring :=
  match go_argv0 g with Some a0 => a0 | None => [] end.

Definition invalid_option (g : GetoptState) (c : ascii) : cstring :=
  progname g ++ lit ": invalid option -- '" ++ [c] ++ lit "'" ++ [NL].

Definition requires_argument (g : GetoptState) (c : ascii) : cstring :=
  progname g ++ lit ": option requires an argument -- '" ++ [c] ++
  lit "'" ++ [NL].

(** Start of a call with an exhausted cluster: skip the operands (unless
    POSIXLY_CORRECT), stop at the end of the vector, at an operand or
    behind ["--"], or enter the next option element.  [true] when there
    is a cluster to scan. *)
Definition getopt_advance (g : GetoptState) : GetoptState * bool :=
  let (skipped, rest) :=
    if posixly_correct w then ([], go_todo g) else skip_operands (go_todo g) in
  match rest with
  | [] =>
      ({| go_argv0 := go_argv0 g; go_done := go_done g;
          go_operands := go_operands g ++ skipped; go_todo := [];
          go_nextchar := []; optarg := None |}, false)
  | a :: rest' =>
      if NONOPTION_P a then
        ({| go_argv0 := go_argv0 g; go_done := go_done g;
            go_operands := go_operands g; go_todo := go_todo g;
            go_nextchar := []; optarg := None |}, false)
      else if decide (a = lit "--") then
        ({| go_argv0 := go_argv0 g; go_done := go_done g ++ [a];
            go_operands := go_operands g ++ skipped ++ rest'; go_todo := [];
            go_nextchar := []; optarg := None |}, false)
      else
        ({| go_argv0 := go_argv0 g; go_done := go_done g ++ [a];
            go_operands := go_operands g ++ skipped; go_todo := rest';
            go_nextchar := tl a; optarg := None |}, true)
  end.

(** The option character [c] taken from the cluster, [rest] the
    characters behind it: the value returned, the new state, and what
    getopt writes to standard error. *)
Definition getopt_char (optstring : cstring) (g : GetoptState)
    (c : ascii) (rest : cstring) : ascii * GetoptState * list event :=
  let g_rest oa :=
    {| go_argv0 := go_argv0 g; go_done := go_done g;
       go_operands := go_operands g; go_todo := go_todo g;
       go_nextchar := rest; optarg := oa |} in
  let g_end oa :=
    {| go_argv0 := go_argv0 g; go_done := go_done g;
       go_operands := go_operands g; go_todo := go_todo g;
       go_nextchar := []; optarg := oa |} in
  match opt_lookup optstring c with
  | None => ("?", g_rest None, [EvStderr (invalid_option g c)])
  | Some NoArg => (c, g_rest None, [])
  | Some OptionalArg =>
      match rest with
      | [] => (c, g_end None, [])
      | _ :: _ => (c, g_end (Some rest), [])
      end
  | Some RequiredArg =>
      match rest with
      | _ :: _ => (c, g_end (Some rest), [])
      | [] =>
          match go_todo g with
          | [] => ("?", g_end None, [EvStderr (requires_argument g c)])
          | a :: todo' =>
              (c, {| go_argv0 := go_argv0 g; go_done := go_done g ++ [a];
                     go_operands := go_operands g; go_todo := todo';
                     go_nextchar := []; optarg := Some a |}, [])
          end
      end
  end.

(** One call of getopt on the state [g]: [None] is the return value -1. *)
Definition getopt_step (optstring : cstring) (g : GetoptState)
  : option ascii * GetoptState * list event :=
  match go_argv0 g with
  | None => (None, g, [])
  | Some _ =>
      let (g1, more) :=
        match go_nextchar g with
        | [] => getopt_advance g
        | _ :: _ => (g, true)
        end in
      if more then
        match go_nextchar g1 with
        | c :: rest =>
            let '(r, g2, diag) := getopt_char optstring g1 c rest in
            (Some r, g2, diag)
        | [] => (None, g1, [])
        end
      else (None, g1, [])
  end.

Definition getopt (optstring : cstring) : M (option ascii) := fun m =>
  let '(r, g, diag) := getopt_step optstring (gopt m) in
  (r, {| state := state m; gopt := g;
         strdup_calls := strdup_calls m; trace := trace m ++ diag |}).

(** [strdup]: a copy of the string, or NULL when memory is short. *)
Definition strdup (s : cstring) : M (option cstring) := fun m =>
  (if strdup_ok w (strdup_calls m) then Some s else None,
   {| state := state m; gopt := gopt m;
      strdup_calls := S (strdup_calls m); trace := trace m |}).

(** ** ProcessOptions *)

Definition options : cstring := lit "hvH:".

(** The body of the [switch]. *)
Definition ProcessOptions_case (c : ascii) : M unit :=
  if decide (c = "v") then
    let* s := get_state in set_state (set_verbose true s)
  else if decide (c = "H") then
    let* oa := (fun m => (optarg (gopt m), m)) in
    match oa with
    | Some a =>
        let* copy := strdup a in
        let* s := get_state in set_state (set_headers copy s)
    | None => ret tt  (* getopt returns 'H' with optarg set: [getopt_H_optarg] *)
    end
  else if decide (c = "h") then
    let* a0 := (fun m => (go_argv0 (gopt m), m)) in usage a0
  else ret tt.

(** [while( ( c = getopt( argC, argV, options ) ) != -1 ) switch( c ) ...]:
    [None] when [fuel] calls of getopt did not reach -1. *)
Fixpoint ProcessOptions_loop (fuel : nat) (m : Machine) : option Machine :=
  match fuel with
  | O => None
  | S fuel' =>
      let (c, m1) := getopt options m in
      match c with
      | None => Some m1
      | Some c =>
          let (_, m2) := ProcessOptions_case c m1 in
          ProcessOptions_loop fuel' m2
      end
  end.

(** Every call of getopt that returns an option takes at least one
    character of the vector: this many calls reach -1
    ([ProcessOptions_loop_total]). *)
Definition getopt_budget (g : GetoptState) : nat :=
  S (length (go_nextchar g) +
     list_sum (map (fun a : cstring => S (length a)) (go_todo g))).

(** [argV] is the vector of [main] and never NULL; the vector itself is
    held by the state of getopt. *)
Definition ProcessOptions (pState : pIOTSendState) (m : Machine)
  : option (Z * Machine) :=
  match pState with
  | NullState => Some (0%Z, m)
  | AddrState =>
      match ProcessOptions_loop (getopt_budget (gopt m)) m with
      | None => None
      | Some m1 =>
          let g := gopt m1 in
          if decide (optind g < argC g) then
            match argV g !! optind g with
            | Some a =>
                let (copy, m2) := strdup a m1 in
                Some (0%Z, snd (set_state (set_fileName copy (state m2)) m2))
            | None => Some (0%Z, m1)
            end
          else Some (0%Z, m1)
      end
  end.

(** The option characters that the calls of getopt in the loop return,
    in order, and the state of getopt when it returns -1.  Both follow
    the loop call by call. *)
Fixpoint getopt_results (fuel : nat) (g : GetoptState) : list ascii :=
  match fuel with
  | O => []
  | S fuel' =>
      match getopt_step options g with
      | (Some c, g', _) => c :: getopt_results fuel' g'
      | (None, _, _) => []
      end
  end.

Fixpoint getopt_final (fuel : nat) (g : GetoptState) : GetoptState :=
  match fuel with
  | O => g
  | S fuel' =>
      match getopt_step options g with
      | (Some _, g', _) => getopt_final fuel' g'
      | (None, g', _) => g'
      end
  end.

(** ** main *)

Definition IOTCLIENT_Create : M (option handle) :=
  let h := client_create w in
  emit (EvCreate h) ;; ret h.

Definition IOTCLIENT_SetVerbose (h : handle) (v : bool) : M unit :=
  emit (EvSetVerbose h v).

Definition IOTCLIENT_Close (h : handle) : M unit :=
  emit (EvClientClose h).

(** [main] behind the call of [ProcessOptions]. *)
Definition main_send : M Z :=
  let* h := IOTCLIENT_Create in
  let* s := get_state in
  set_state (set_hIoTClient h s) ;;
  let* result :=
    match h with
    | Some hd =>
        let* s := get_state in
        IOTCLIENT_SetVerbose hd (verbose s) ;;
        let* _ := SendMessage AddrState in
        IOTCLIENT_Close hd ;;
        ret (EOK w)
    | None => ret EINVAL
    end in
  (* clean up allocated memory *)
  let* s := get_state in
  when (bool_decide (headers s <> None)) (set_state (set_headers None s)) ;;
  let* s := get_state in
  when (bool_decide (fileName s <> None)) (set_state (set_fileName None s)) ;;
  ret result.

Definition main (m : Machine) : option (Z * Machine) :=
  match ProcessOptions AddrState m with
  | None => None
  | Some (_, m1) => Some (main_send m1)
  end.

End Program.

(** The machine at program start: the global [state] is zeroed, getopt
    has not been called. *)
Definition initial_state : IOTSendState :=
  {| hIoTClient := None; verbose := false; fileName := None; headers := None |}.

Definition init_machine (argv : list cstring) : Machine :=
  {| state := initial_state; gopt := getopt_init argv;
     strdup_calls := 0; trace := [] |}.

(** What getopt makes of a command line: the option characters it
    returns, and the operands it leaves at [argV[optind]] and behind. *)
Definition scanned_options (w : World) (argv : list cstring) : list ascii :=
  let g := getopt_init argv in getopt_results w (getopt_budget g) g.

Definition operands (w : World) (argv : list cstring) : list cstring :=
  let g0 := getopt_init argv in
  let g := getopt_final w (getopt_budget g0) g0 in
  drop (optind g) (argV g).

(** A run of the program on a command line. *)
Definition run (w : World) (argv : list cstring) : option (Z * Machine) :=
  main w (init_machine argv).

(** ** Vocabulary of the statements *)

(** The events a call appends to the trace. *)
Definition events_since (m m' : Machine) : list event :=
  drop (length (trace m)) (trace m').

(** The text [SendMessage] has in its local [headers] when it reaches the
    stream call. *)
Definition header_text (s : IOTSendState) : cstring :=
  match headers s with
  | Some h => replace_semicolons h
  | None => default_headers
  end.

(** What the size check writes. *)
Definition size_check_events (w : World) (path : cstring) : list event :=
  match sys_stat w path with
  | Some st_size =>
      if bool_decide (st_size > MAX_IOT_MSG_SIZE w)%Z
      then [EvStderr size_warning] else []
  | None => []
  end.

(** One call of [SendMessage] in closed form: its events and its result
    ([SendMessage_closed_form]). *)
Definition SendMessage_events (w : World) (s : IOTSendState) : list event :=
  match fileName s with
  | None =>
      [EvStream (hIoTClient s) (header_text s) STDIN_FILENO
         (client_stream w (hIoTClient s) (header_text s) STDIN_FILENO)]
  | Some path =>
      let fd := sys_open w path in
      size_check_events w path ++ EvOpen path fd ::
      (if decide (fd <> -1)%Z
       then [EvStream (hIoTClient s) (header_text s) fd
               (client_stream w (hIoTClient s) (header_text s) fd);
             EvClose fd]
       else [EvStderr file_not_found])
  end.

Definition SendMessage_result (w : World) (s : IOTSendState) : Z :=
  let fd := match fileName s with
            | Some path => sys_open w path
            | None => STDIN_FILENO
            end in
  if decide (fd <> -1)%Z
  then client_stream w (hIoTClient s) (header_text s) fd
  else EINVAL.

Definition is_stderr (e : event) : Prop :=
  match e with EvStderr _ => True | _ => False end.

(** What [usage( argV[0] )] writes. *)
Definition usage_events (g : GetoptState) : list event :=
  match go_argv0 g with
  | Some a0 => [EvStderr (usage_text a0)]
  | None => []
  end.

(** The machine behind a call of getopt that left the state [g] and
    wrote [d]. *)
Definition with_getopt (m : Machine) (g : GetoptState) (d : list event) : Machine :=
  {| state := state m; gopt := g; strdup_calls := strdup_calls m;
     trace := trace m ++ d |}.

(** The part of the vector getopt still has to read, counted in
    characters and terminators. *)
Definition todo_size (l : list cstring) : nat :=
  list_sum (map (fun a : cstring => S (length a)) l).

(** The descriptor table behind a sequence of events: a successful open
    enters its descriptor, a close takes it out. *)
Fixpoint remove_fd (fd : Z) (fds : list Z) : list Z :=
  match fds with
  | [] => []
  | x :: fds' => if decide (x = fd) then fds' else x :: remove_fd fd fds'
  end.

Definition fd_event (fds : list Z) (e : event) : list Z :=
  match e with
  | EvOpen _ fd => if decide (fd <> -1)%Z then fd :: fds else fds
  | EvClose fd => remove_fd fd fds
  | _ => fds
  end.

Definition open_descriptors (evs : list event) (fds : list Z) : list Z :=
  fold_left fd_event evs fds.

Definition nonempty (a : cstring) : Prop := a <> [].

(** A world to run examples in: one large and one small file, a client
    that can be created and whose stream call fails with 5 (EIO); the
    message limit is a sample value. *)
Definition sample_world : World :=
  {| EOK := 0;
     MAX_IOT_MSG_SIZE := 262144;
     posixly_correct := false;
     strdup_ok := fun _ => true;
     sys_stat := fun path =>
       if decide (path = lit "big.bin") then Some 300000%Z
       else if decide (path = lit "msg.txt") then Some 12%Z
       else None;
     sys_open := fun path =>
       if decide (path = lit "big.bin") then 3%Z
       else if decide (path = lit "msg.txt") then 3%Z
       else (-1)%Z;
     client_create := Some 1;
     client_stream := fun _ _ _ => 5%Z |}.

(** The same world with every size unknown to stat. *)
Definition without_stat (w : World) : World :=
  {| EOK := EOK w; MAX_IOT_MSG_SIZE := MAX_IOT_MSG_SIZE w;
     posixly_correct := posixly_correct w; strdup_ok := strdup_ok w;
     sys_stat := fun _ => None; sys_open := sys_open w;
     client_create := client_create w; client_stream := client_stream w |}.

(** A machine whose state holds the given strings. *)
Definition machine_with (f h : option cstring) : Machine :=
  {| state := {| hIoTClient := Some 1; verbose := false;
                 fileName := f; headers := h |};
     gopt := getopt_init [lit "iotsend"]; strdup_calls := 0; trace := [] |}.

(** The arguments of the ['H'] options getopt returns, in order. *)
Fixpoint getopt_H_args (w : World) (fuel : nat) (g : GetoptState)
  : list cstring :=
  match fuel with
  | O => []
  | S fuel' =>
      match getopt_step w options g with
      | (Some c, g', _) =>
          (if decide (c = "H")
           then match optarg g' with Some a => [a] | None => [] end
           else []) ++ getopt_H_args w fuel' g'
      | (None, _, _) => []
      end
  end.

Definition header_arguments (w : World) (argv : list cstring) : list cstring :=
  let g := getopt_init argv in getopt_H_args w (getopt_budget g) g.

Definition is_stream (e : event) : bool :=
  match e with EvStream _ _ _ _ => true | _ => false end.

(** The calls of the client library. *)
Definition is_client_call (e : event) : bool :=
  match e with
  | EvCreate _ | EvSetVerbose _ _ | EvClientClose _ => true
  | _ => false
  end.

(** A character that ends a header line once [SendMessage] has rewritten
    the string. *)
Definition ends_line (c : ascii) : Prop := c = ";" \/ c = NL.

(** How many stream calls a trace holds. *)
Definition stream_calls (evs : list event) : nat :=
  length (List.filter is_stream evs).

(** The sample world without memory for strdup. *)
Definition no_memory_world : World :=
  {| EOK := EOK sample_world;
     MAX_IOT_MSG_SIZE := MAX_IOT_MSG_SIZE sample_world;
     posixly_correct := posixly_correct sample_world;
     strdup_ok := fun _ => false;
     sys_stat := sys_stat sample_world; sys_open := sys_open sample_world;
     client_create := client_create sample_world;
     client_stream := client_stream sample_world |}.

(** The sample world without a client. *)
Definition no_client_world : World :=
  {| EOK := EOK sample_world;
     MAX_IOT_MSG_SIZE := MAX_IOT_MSG_SIZE sample_world;
     posixly_correct := posixly_correct sample_world;
     strdup_ok := strdup_ok sample_world;
     sys_stat := sys_stat sample_world; sys_open := sys_open sample_world;
     client_create := None;
     client_stream := client_stream sample_world |}.

(** How the loop with the [int] counter ends: through its exit test,
    by [i++] leaving the range of [int], or not within the fuel. *)
Inductive loop_outcome : Type :=
| LoopExit (headers : cstring)
| LoopOverflow
| LoopFuel.

Fixpoint replace_loop_int32 (fuel : nat) (i : Z) (headers : cstring)
  : loop_outcome :=
  match fuel with
  | O => LoopFuel
  | S fuel' =>
      if decide (i < Z.of_nat (strlen headers))%Z then
        let headers' :=
          if decide (headers !! Z.to_nat i = Some ";")
          then <[Z.to_nat i := NL]> headers else headers in
        if decide (i + 1 <= INT_MAX)%Z
        then replace_loop_int32 fuel' (i + 1) headers'
        else LoopOverflow
      else LoopExit headers
  end.

(** The machine [main] has built when it calls [SendMessage]: the
    handle is stored, the create and the set-verbose call are made. *)
Definition at_send (hd : handle) (m1 : Machine) : Machine :=
  {| state := set_hIoTClient (Some hd) (state m1);
     gopt := gopt m1; strdup_calls := strdup_calls m1;
     trace := trace m1 ++
              [EvCreate (Some hd); EvSetVerbose hd (verbose (state m1))] |}.

(** The sample world with every open refused. *)
Definition locked_world : World :=
  {| EOK := EOK sample_world;
     MAX_IOT_MSG_SIZE := MAX_IOT_MSG_SIZE sample_world;
     posixly_correct := posixly_correct sample_world;
     strdup_ok := strdup_ok sample_world;
     sys_stat := sys_stat sample_world; sys_open := fun _ => (-1)%Z;
     client_create := client_create sample_world;
     client_stream := client_stream sample_world |}.

(** What ProcessOptions writes is longer than the message
    [File not found]: it is none of the messages of [SendMessage]. *)
Definition long_text (e : event) : Prop :=
  exists t, e = EvStderr t /\ length file_not_found < length t.

(** * Proofs *)

(** ** The header rewriting loop *)

Lemma subst_semicolon_semi : subst_semicolon ";" = NL.
Proof. reflexivity. Qed.

Lemma subst_semicolon_other (c : ascii) : c <> ";" -> subst_semicolon c = c.
Proof. intros Hc. unfold subst_semicolon. destruct (decide (c = ";")); congruence. Qed.

Lemma replace_loop_spec (fuel : nat) :
  forall (i : nat) (h : cstring),
    length h <= i + fuel -> i <= length h ->
    replace_loop fuel i h = take i h ++ map subst_semicolon (drop i h).
Proof.
  induction fuel as [|fuel IH]; intros i h Hfuel Hi; cbn [replace_loop].
  - rewrite drop_ge by lia. rewrite take_ge by lia. simpl. by rewrite app_nil_r.
  - unfold strlen. destruct (decide (i < length h)) as [Hlt|Hge].
    + destruct (lookup_lt_is_Some_2 h i Hlt) as [c Hc].
      rewrite (drop_S h c i Hc). cbn [map].
      destruct (decide (h !! i = Some ";")) as [Hsemi|Hother].
      * assert (c = ";") by congruence. subst c.
        rewrite IH by (rewrite ?length_insert; lia).
        rewrite drop_insert_lt by lia.
        rewrite (take_S_r _ i NL) by (by apply list_lookup_insert_eq).
        rewrite take_insert_ge by lia.
        rewrite subst_semicolon_semi. by rewrite <- app_assoc.
      * rewrite IH by lia.
        rewrite (take_S_r h i c Hc).
        rewrite subst_semicolon_other by congruence.
        by rewrite <- app_assoc.
    + rewrite drop_ge by lia. rewrite take_ge by lia. simpl. by rewrite app_nil_r.
Qed.

Lemma replace_semicolons_map (h : cstring) :
  replace_semicolons h = map subst_semicolon h.
Proof.
  unfold replace_semicolons, strlen. rewrite replace_loop_spec by lia. reflexivity.
Qed.

(** More fuel than the length of the buffer changes nothing: the loop
    has left through its exit test. *)
Lemma replace_loop_fuel (fuel : nat) (h : cstring) :
  length h <= fuel -> replace_loop fuel 0 h = replace_semicolons h.
Proof.
  intros Hf. rewrite replace_semicolons_map. rewrite replace_loop_spec by lia. reflexivity.
Qed.

Lemma replace_semicolons_length (h : cstring) :
  length (replace_semicolons h) = length h.
Proof. rewrite replace_semicolons_map. apply length_map. Qed.

Lemma replace_semicolons_lookup (h : cstring) (i : nat) (c : ascii) :
  h !! i = Some c ->
  replace_semicolons h !! i = Some (if decide (c = ";") then NL else c).
Proof.
  intros Hc. rewrite replace_semicolons_map.
  rewrite list_lookup_fmap. rewrite Hc. reflexivity.
Qed.

Lemma replace_loop_int_spec (fuel : nat) :
  forall (i : nat) (h : cstring),
    (Z.of_nat (length h) <= INT_MAX)%Z ->
    replace_loop_int fuel (Z.of_nat i) h = Some (replace_loop fuel i h).
Proof.
  induction fuel as [|fuel IH]; intros i h Hmax;
    cbn [replace_loop replace_loop_int]; [done|].
  unfold strlen.
  destruct (decide (Z.of_nat i < Z.of_nat (length h))%Z) as [Hlt|Hge];
    destruct (decide (i < length h)) as [Hlt'|Hge']; try lia; [|done].
  rewrite Nat2Z.id.
  destruct (decide (Z.of_nat i + 1 <= INT_MAX)%Z) as [_|Hov]; [|lia].
  replace (Z.of_nat i + 1)%Z with (Z.of_nat (S i)) by lia.
  destruct (decide (h !! i = Some ";")).
  - apply IH. by rewrite length_insert.
  - by apply IH.
Qed.

(** ** SendMessage *)

Ltac run_monad :=
  unfold bind, ret, get_state, set_state, emit, when, fprintf_stderr,
    open, close, IOTCLIENT_Stream; cbn.

Lemma events_since_app (m m' : Machine) (evs : list event) :
  trace m' = trace m ++ evs -> events_since m m' = evs.
Proof. intros H. unfold events_since. rewrite H. by rewrite drop_app_length. Qed.

Lemma set_headers_same (s : IOTSendState) :
  set_headers (headers s) s = s.
Proof. by destruct s. Qed.

Lemma SendMessage_closed_form (w : World) (m : Machine) :
  SendMessage w AddrState m =
  (SendMessage_result w (state m),
   {| state := set_headers (replace_semicolons <$> headers (state m)) (state m);
      gopt := gopt m; strdup_calls := strdup_calls m;
      trace := trace m ++ SendMessage_events w (state m) |}).
Proof.
  unfold SendMessage, SendMessage_result, SendMessage_events, header_text,
    size_check_events.
  run_monad.
  destruct (headers (state m)) as [h|] eqn:Hh; cbn;
    (destruct (fileName (state m)) as [path|] eqn:Hf; cbn;
     [ rewrite ?Hf; destruct (sys_stat w path) as [sz|]; cbn;
       [ destruct (bool_decide (sz > MAX_IOT_MSG_SIZE w)%Z); cbn | ];
       destruct (decide (sys_open w path <> -1)%Z) as [Hfd|Hfd]; cbn;
       rewrite ?Hf; cbn;
       rewrite ?(bool_decide_eq_true_2 _ Hfd), ?(bool_decide_eq_false_2 _ Hfd); cbn
     | destruct (decide (STDIN_FILENO <> -1)%Z) as [Hfd|Hfd]; [|by exfalso; apply Hfd]; cbn;
       rewrite ?Hf; cbn ]);
    rewrite <- ?Hh, ?set_headers_same, <- ?app_assoc; cbn; try reflexivity.
  all: by destruct m.
Qed.

Lemma SendMessage_events_since (w : World) (m : Machine) :
  events_since m (SendMessage w AddrState m).2 = SendMessage_events w (state m).
Proof. rewrite SendMessage_closed_form. by apply events_since_app. Qed.

Lemma SendMessage_fst (w : World) (m : Machine) :
  (SendMessage w AddrState m).1 = SendMessage_result w (state m).
Proof. by rewrite SendMessage_closed_form. Qed.

Lemma SendMessage_state (w : World) (m : Machine) :
  state (SendMessage w AddrState m).2 =
  set_headers (replace_semicolons <$> headers (state m)) (state m).
Proof. by rewrite SendMessage_closed_form. Qed.

Lemma size_check_events_stderr (w : World) (path : cstring) :
  Forall is_stderr (size_check_events w path).
Proof.
  unfold size_check_events. destruct (sys_stat w path) as [sz|]; [|constructor].
  destruct (bool_decide _); repeat constructor.
Qed.

Lemma In_stderr_inv (evs : list event) (e : event) :
  Forall is_stderr evs -> In e evs -> exists t, e = EvStderr t.
Proof.
  intros Hall Hin. rewrite Forall_forall in Hall. apply list_elem_of_In, Hall in Hin.
  destruct e; try done. eauto.
Qed.

(** Every stream call of [SendMessage] carries [header_text]. *)
Lemma SendMessage_stream_text (w : World) (s : IOTSendState)
    (h : option handle) (t : cstring) (fd res : Z) :
  In (EvStream h t fd res) (SendMessage_events w s) -> t = header_text s.
Proof.
  unfold SendMessage_events. destruct (fileName s) as [path|].
  - rewrite in_app_iff. intros [Hin|Hin].
    + destruct (In_stderr_inv _ _ (size_check_events_stderr w path) Hin); done.
    + destruct Hin as [Hin|Hin]; [done|].
      destruct (decide (sys_open w path <> -1)%Z); simpl in Hin;
        intuition congruence.
  - simpl. intuition congruence.
Qed.

(** C1: the header string of the state is rewritten before the stream
    call: every [';'] becomes a newline, every other character and the
    length stay; ["a:1;b:2"] becomes ["a:1\nb:2"]. *)
Theorem header_rewrite (w : World) (m : Machine) (h : cstring) :
  headers (state m) = Some h ->
  let m' := (SendMessage w AddrState m).2 in
  let h' := replace_semicolons h in
  headers (state m') = Some h' /\
  (forall hd t fd res,
      In (EvStream hd t fd res) (events_since m m') -> t = h') /\
  length h' = length h /\
  (forall i c, h !! i = Some c ->
      h' !! i = Some (if decide (c = ";") then NL else c)) /\
  replace_semicolons (lit "a:1;b:2") = lit "a:1" ++ [NL] ++ lit "b:2".
Proof.
  intros Hh m' h'. subst m' h'. repeat split.
  - rewrite SendMessage_state. by rewrite Hh.
  - intros hd t fd res. rewrite SendMessage_events_since.
    intros Hin%SendMessage_stream_text. unfold header_text in Hin.
    by rewrite Hh in Hin.
  - apply replace_semicolons_length.
  - apply replace_semicolons_lookup.
Qed.

(** The rewriting at the header string [k:v;x:y]. *)
Lemma header_rewrite_witness :
  headers (state (machine_with None (Some (lit "k:v;x:y")))) = Some (lit "k:v;x:y") /\
  headers (state (SendMessage sample_world AddrState
                    (machine_with None (Some (lit "k:v;x:y")))).2)
  = Some (lit "k:v" ++ [NL] ++ lit "x:y").
Proof.
  split; [reflexivity|].
  exact (proj1 (header_rewrite sample_world
                  (machine_with None (Some (lit "k:v;x:y")))
                  (lit "k:v;x:y") eq_refl)).
Defined.

(** One call of [SendMessage] with a file that cannot be opened: the
    file is reported on standard error and no stream call is made. *)
Theorem unopened_file_not_sent (w : World) (m : Machine) (path : cstring) :
  fileName (state m) = Some path ->
  sys_open w path = (-1)%Z ->
  let r := (SendMessage w AddrState m).1 in
  let evs := events_since m (SendMessage w AddrState m).2 in
  In (EvStderr file_not_found) evs /\
  (forall h t fd res, ~ In (EvStream h t fd res) evs) /\
  (forall fd, ~ In (EvClose fd) evs) /\
  r = EINVAL.
Proof.
  intros Hf Ho r evs. subst r evs.
  rewrite SendMessage_events_since, SendMessage_fst.
  unfold SendMessage_events, SendMessage_result. rewrite Hf, Ho.
  destruct (decide (-1 <> -1)%Z) as [Hne|_]; [done|].
  assert (Hw := size_check_events_stderr w path).
  repeat split.
  - rewrite in_app_iff. right. simpl. auto.
  - intros h t fd res. rewrite in_app_iff. intros [Hin|Hin].
    + destruct (In_stderr_inv _ _ Hw Hin); done.
    + simpl in Hin. intuition congruence.
  - intros fd. rewrite in_app_iff. intros [Hin|Hin].
    + destruct (In_stderr_inv _ _ Hw Hin); done.
    + simpl in Hin. intuition congruence.
Qed.

(** [gone.txt] cannot be opened in the sample world. *)
Lemma unopened_file_not_sent_witness :
  In (EvStderr file_not_found)
     (events_since (machine_with (Some (lit "gone.txt")) None)
        (SendMessage sample_world AddrState
           (machine_with (Some (lit "gone.txt")) None)).2).
Proof.
  exact (proj1 (unopened_file_not_sent sample_world
                  (machine_with (Some (lit "gone.txt")) None)
                  (lit "gone.txt") eq_refl eq_refl)).
Defined.

Lemma SendMessage_events_without_stat (w : World) (s : IOTSendState)
    (path : cstring) :
  fileName s = Some path ->
  SendMessage_events w s =
  size_check_events w path ++ SendMessage_events (without_stat w) s.
Proof.
  intros Hf. unfold SendMessage_events. rewrite Hf. reflexivity.
Qed.

(** One call of [SendMessage] with a file larger than the message
    limit: the warning is written, and behind it the call does what it
    does when stat knows no size; a file that opens is passed to the
    stream call and closed. *)
Theorem oversized_file_still_sent (w : World) (m : Machine)
    (path : cstring) (st_size : Z) :
  fileName (state m) = Some path ->
  sys_stat w path = Some st_size ->
  (st_size > MAX_IOT_MSG_SIZE w)%Z ->
  let r := (SendMessage w AddrState m).1 in
  let evs := events_since m (SendMessage w AddrState m).2 in
  let fd := sys_open w path in
  evs = EvStderr size_warning ::
        events_since m (SendMessage (without_stat w) AddrState m).2 /\
  r = (SendMessage (without_stat w) AddrState m).1 /\
  In (EvOpen path fd) evs /\
  (fd <> (-1)%Z ->
   evs = [EvStderr size_warning; EvOpen path fd;
          EvStream (hIoTClient (state m)) (header_text (state m)) fd r;
          EvClose fd]).
Proof.
  intros Hf Hstat Hbig r evs fd. subst r evs fd.
  rewrite !SendMessage_events_since, !SendMessage_fst.
  rewrite (SendMessage_events_without_stat w _ path Hf).
  assert (Hw : size_check_events w path = [EvStderr size_warning]).
  { unfold size_check_events. rewrite Hstat.
    by rewrite bool_decide_eq_true_2. }
  rewrite Hw. unfold SendMessage_events, SendMessage_result.
  rewrite Hf. cbn [sys_open without_stat size_check_events sys_stat app client_stream].
  repeat split.
  - simpl. auto.
  - intros Hfd. by destruct (decide (sys_open w path <> -1)%Z).
Qed.

(** [big.bin] has 300000 bytes and opens as descriptor 3. *)
Lemma oversized_file_still_sent_witness :
  events_since (machine_with (Some (lit "big.bin")) None)
    (SendMessage sample_world AddrState
       (machine_with (Some (lit "big.bin")) None)).2
  = [EvStderr size_warning; EvOpen (lit "big.bin") 3;
     EvStream (Some 1) default_headers 3 5; EvClose 3].
Proof.
  refine (proj2 (proj2 (proj2
    (oversized_file_still_sent sample_world
       (machine_with (Some (lit "big.bin")) None) (lit "big.bin") 300000
       eq_refl eq_refl _))) _).
  - reflexivity.
  - vm_compute. discriminate.
Defined.

Lemma remove_fd_head (fd : Z) (fds : list Z) : remove_fd fd (fd :: fds) = fds.
Proof. simpl. by destruct (decide (fd = fd)). Qed.

Lemma open_descriptors_stderr (evs : list event) (fds : list Z) :
  Forall is_stderr evs -> open_descriptors evs fds = fds.
Proof.
  unfold open_descriptors. induction 1 as [|e evs He _ IH]; [done|].
  simpl. destruct e; try done.
Qed.

Lemma open_descriptors_app (evs1 evs2 : list event) (fds : list Z) :
  open_descriptors (evs1 ++ evs2) fds =
  open_descriptors evs2 (open_descriptors evs1 fds).
Proof. unfold open_descriptors. apply fold_left_app. Qed.

(** C8: a descriptor that [SendMessage] opens is opened right before
    the stream call and closed right after it; whatever the call does,
    the descriptor table is afterwards what it was; without a file name
    nothing is opened and nothing, standard input included, is closed. *)
Theorem descriptor_lifecycle (w : World) (m : Machine) :
  let evs := events_since m (SendMessage w AddrState m).2 in
  (forall path fd,
      In (EvOpen path fd) evs -> fd <> (-1)%Z ->
      exists pre t res,
        Forall is_stderr pre /\
        evs = pre ++ [EvOpen path fd;
                      EvStream (hIoTClient (state m)) t fd res;
                      EvClose fd]) /\
  (forall fds, open_descriptors evs fds = fds) /\
  (fileName (state m) = None ->
   forall e, In e evs ->
     match e with EvOpen _ _ | EvClose _ => False | _ => True end).
Proof.
  intros evs. subst evs. rewrite SendMessage_events_since.
  unfold SendMessage_events.
  destruct (fileName (state m)) as [path|].
  - assert (Hw := size_check_events_stderr w path).
    split; [|split].
    + intros p fd. rewrite in_app_iff. intros [Hin|Hin] Hfd.
      { destruct (In_stderr_inv _ _ Hw Hin); done. }
      destruct (decide (sys_open w path <> -1)%Z) as [Hok|Hbad];
        simpl in Hin; [|intuition congruence].
      destruct Hin as [[= <- <-]|[|[|[]]]]; try done. eauto.
    + intros fds. rewrite open_descriptors_app, (open_descriptors_stderr _ _ Hw).
      unfold open_descriptors.
      destruct (decide (sys_open w path <> -1)%Z) as [Hok|Hbad]; simpl.
      * destruct (decide (sys_open w path <> -1)%Z); [|done]. apply remove_fd_head.
      * by destruct (decide (sys_open w path <> -1)%Z).
    + done.
  - split; [|split].
    + intros p fd. simpl. intuition congruence.
    + done.
    + intros _ e. simpl. intros [<-|[]]. done.
Qed.

(** ** getopt and the loop of ProcessOptions *)

Section Getopt.
Variable w : World.

Lemma skip_operands_app (l : list cstring) :
  l = (skip_operands l).1 ++ (skip_operands l).2.
Proof.
  induction l as [|a l IH]; [done|]. simpl.
  destruct (NONOPTION_P a); [|done].
  destruct (skip_operands l) as [sk rest]. simpl in *. by rewrite IH at 1.
Qed.

Lemma todo_size_app (l1 l2 : list cstring) :
  todo_size (l1 ++ l2) = todo_size l1 + todo_size l2.
Proof. unfold todo_size. by rewrite map_app, list_sum_app. Qed.

Lemma NONOPTION_P_false (a : cstring) :
  NONOPTION_P a = false -> exists x r, a = "-" :: x :: r.
Proof.
  destruct a as [|c [|x r]]; simpl.
  - done.
  - destruct c as [[] [] [] [] [] [] [] []]; done.
  - destruct c as [[] [] [] [] [] [] [] []]; try done. eauto.
Qed.

Lemma getopt_advance_budget (g g1 : GetoptState) :
  getopt_advance w g = (g1, true) ->
  go_nextchar g1 <> [] /\
  length (go_nextchar g1) + todo_size (go_todo g1) < todo_size (go_todo g).
Proof.
  unfold getopt_advance.
  assert (Hsk := skip_operands_app (go_todo g)).
  destruct (posixly_correct w).
  - destruct (go_todo g) as [|a rest]; [done|].
    destruct (NONOPTION_P a) eqn:Hn; [done|].
    destruct (decide (a = lit "--")); [done|].
    intros [= <-]. apply NONOPTION_P_false in Hn as (x & r & ->). simpl.
    split; [done|]. unfold todo_size. simpl. lia.
  - destruct (skip_operands (go_todo g)) as [sk rest]. simpl in Hsk.
    destruct rest as [|a rest]; [done|].
    destruct (NONOPTION_P a) eqn:Hn; [done|].
    destruct (decide (a = lit "--")); [done|].
    intros [= <-]. apply NONOPTION_P_false in Hn as (x & r & ->). simpl.
    split; [done|]. rewrite Hsk, todo_size_app. unfold todo_size. simpl. lia.
Qed.

Lemma getopt_char_budget (opts : cstring) (g g' : GetoptState) (c r : ascii)
    (rest : cstring) (d : list event) :
  getopt_char opts g c rest = (r, g', d) ->
  length (go_nextchar g') + todo_size (go_todo g')
  <= length rest + todo_size (go_todo g).
Proof.
  unfold getopt_char.
  destruct (opt_lookup opts c) as [[| |]|].
  - intros [= <- <- <-]. simpl. lia.
  - destruct rest as [|x rest].
    + destruct (go_todo g) as [|a todo']; intros [= <- <- <-]; simpl.
      * lia.
      * unfold todo_size. simpl. lia.
    + intros [= <- <- <-]. simpl. lia.
  - destruct rest; intros [= <- <- <-]; simpl; lia.
  - intros [= <- <- <-]. simpl. lia.
Qed.

Lemma getopt_budget_eq (g : GetoptState) :
  getopt_budget g = S (length (go_nextchar g) + todo_size (go_todo g)).
Proof. reflexivity. Qed.

(** A call of getopt that returns an option shrinks the budget. *)
Lemma getopt_step_budget (opts : cstring) (g g' : GetoptState) (c : ascii)
    (d : list event) :
  getopt_step w opts g = (Some c, g', d) ->
  getopt_budget g' < getopt_budget g.
Proof.
  unfold getopt_step. rewrite !getopt_budget_eq.
  destruct (go_argv0 g); [|done].
  destruct (go_nextchar g) as [|x nc] eqn:Hnc.
  - destruct (getopt_advance w g) as [g1 more] eqn:Hadv.
    destruct more; [|done].
    apply getopt_advance_budget in Hadv as [Hne Hlt].
    destruct (go_nextchar g1) as [|c1 rest] eqn:Hnc1; [done|].
    destruct (getopt_char opts g1 c1 rest) as [[r g2] dg] eqn:Hch.
    intros [= _ <- _]. apply getopt_char_budget in Hch. simpl in *. lia.
  - rewrite Hnc.
    destruct (getopt_char opts g x nc) as [[r g2] dg] eqn:Hch.
    intros [= _ <- _]. apply getopt_char_budget in Hch. simpl in *. lia.
Qed.

(** The three cases of the switch, and its default. *)
Lemma ProcessOptions_case_v (m : Machine) :
  ProcessOptions_case w "v" m =
  (tt, {| state := set_verbose true (state m); gopt := gopt m;
          strdup_calls := strdup_calls m; trace := trace m |}).
Proof. reflexivity. Qed.

Lemma ProcessOptions_case_H (m : Machine) (a : cstring) :
  optarg (gopt m) = Some a ->
  ProcessOptions_case w "H" m =
  (tt, {| state := set_headers
                     (if strdup_ok w (strdup_calls m) then Some a else None)
                     (state m);
          gopt := gopt m;
          strdup_calls := S (strdup_calls m); trace := trace m |}).
Proof.
  intros Ha. unfold ProcessOptions_case.
  destruct (decide ("H" = "v")) as [|_]; [done|].
  destruct (decide ("H" = "H")) as [_|]; [|done].
  unfold bind, ret, get_state, set_state, strdup. by rewrite Ha.
Qed.

Lemma ProcessOptions_case_h (m : Machine) :
  ProcessOptions_case w "h" m =
  (tt, {| state := state m; gopt := gopt m;
          strdup_calls := strdup_calls m;
          trace := trace m ++ usage_events (gopt m) |}).
Proof.
  unfold ProcessOptions_case.
  destruct (decide ("h" = "v")) as [|_]; [done|].
  destruct (decide ("h" = "H")) as [|_]; [done|].
  destruct (decide ("h" = "h")) as [_|]; [|done].
  unfold bind, ret, usage, usage_events, fprintf_stderr, emit.
  destruct (go_argv0 (gopt m)); [done|]. rewrite app_nil_r. by destruct m.
Qed.

Lemma ProcessOptions_case_default (m : Machine) (c : ascii) :
  c <> "v" -> c <> "H" -> c <> "h" ->
  ProcessOptions_case w c m = (tt, m).
Proof.
  intros Hv HH Hh. unfold ProcessOptions_case.
  destruct (decide (c = "v")); [done|].
  destruct (decide (c = "H")); [done|].
  by destruct (decide (c = "h")).
Qed.

(** The option string of the program: [h] and [v] are flags, [H] takes
    an argument, everything else is unknown to getopt. *)
Lemma opt_lookup_options (c : ascii) :
  opt_lookup options c =
  if decide (c = "h") then Some NoArg
  else if decide (c = "v") then Some NoArg
  else if decide (c = "H") then Some RequiredArg
  else None.
Proof.
  unfold opt_lookup, options, lit. simpl.
  destruct (decide (c = "h")) as [->|Hh]; [done|].
  destruct (decide (c = "v")) as [->|Hv]; [done|].
  destruct (decide (c = "H")) as [->|HH]; [done|].
  destruct (bool_decide (c = ":") || bool_decide (c = ";")) eqn:Hcolon; [done|].
  apply orb_false_elim in Hcolon as [Hcolon%bool_decide_eq_false _].
  destruct (decide ("h" = c)); [congruence|].
  destruct (decide ("v" = c)); [congruence|].
  destruct (decide ("H" = c)); [congruence|].
  destruct (decide (":" = c)); [congruence|done].
Qed.

Lemma getopt_eq (m : Machine) :
  getopt w options m =
  let '(r, g, d) := getopt_step w options (gopt m) in (r, with_getopt m g d).
Proof. reflexivity. Qed.

Lemma ProcessOptions_loop_S (fuel : nat) (m : Machine) :
  ProcessOptions_loop w (S fuel) m =
  match getopt_step w options (gopt m) with
  | (Some c, g, d) =>
      ProcessOptions_loop w fuel (ProcessOptions_case w c (with_getopt m g d)).2
  | (None, g, d) => Some (with_getopt m g d)
  end.
Proof.
  cbn [ProcessOptions_loop]. rewrite getopt_eq.
  destruct (getopt_step w options (gopt m)) as [[[c|] g] d]; [|done].
  by destruct (ProcessOptions_case w c (with_getopt m g d)).
Qed.

(** What getopt hands to the switch: a known option character or ['?'];
    with ['H'] an argument, and a diagnostic only with ['?']. *)
Lemma getopt_step_result (g g' : GetoptState) (c : ascii) (d : list event) :
  getopt_step w options g = (Some c, g', d) ->
  Forall is_stderr d /\
  (c = "H" -> exists a, optarg g' = Some a) /\
  (c = "h" \/ c = "v" \/ c = "H" \/ c = "?").
Proof.
  unfold getopt_step. destruct (go_argv0 g); [|done].
  assert (Hchar : forall g1 x rest r g2 dg,
    getopt_char options g1 x rest = (r, g2, dg) ->
    Forall is_stderr dg /\ (r = "H" -> exists a, optarg g2 = Some a) /\
    (r = "h" \/ r = "v" \/ r = "H" \/ r = "?")).
  { intros g1 x rest r g2 dg. unfold getopt_char. rewrite opt_lookup_options.
    destruct (decide (x = "h")) as [->|?]; [intros [= <- <- <-]; split; [by constructor|split; [done|tauto]]|].
    destruct (decide (x = "v")) as [->|?]; [intros [= <- <- <-]; split; [by constructor|split; [done|tauto]]|].
    destruct (decide (x = "H")) as [->|?].
    - destruct rest as [|y rest]; [destruct (go_todo g1)|];
        intros [= <- <- <-]; (split; [repeat constructor|split; [|tauto]]);
        try done; intros _; simpl; eauto.
    - intros [= <- <- <-]. split; [repeat constructor|split; [done|tauto]]. }
  destruct (go_nextchar g) as [|x nc] eqn:Hnc.
  - destruct (getopt_advance w g) as [g1 more]. destruct more; [|done].
    destruct (go_nextchar g1) as [|c1 rest]; [done|].
    destruct (getopt_char options g1 c1 rest) as [[r g2] dg] eqn:Hch.
    intros [= <- <- <-]. eapply Hchar, Hch.
  - rewrite Hnc. destruct (getopt_char options g x nc) as [[r g2] dg] eqn:Hch.
    intros [= <- <- <-]. eapply Hchar, Hch.
Qed.

(** One turn of the loop: what the switch does with the character
    getopt returned. *)
Lemma loop_body_effect (m : Machine) (c : ascii) (g : GetoptState)
    (d : list event) :
  getopt_step w options (gopt m) = (Some c, g, d) ->
  let m2 := (ProcessOptions_case w c (with_getopt m g d)).2 in
  gopt m2 = g /\
  fileName (state m2) = fileName (state m) /\
  hIoTClient (state m2) = hIoTClient (state m) /\
  trace m2 = trace m ++ d ++ (if decide (c = "h") then usage_events g else []) /\
  (c <> "H" -> headers (state m2) = headers (state m)) /\
  (c = "H" -> exists a, optarg g = Some a /\
     headers (state m2) = if strdup_ok w (strdup_calls m) then Some a else None) /\
  (c <> "v" -> verbose (state m2) = verbose (state m)) /\
  (c = "v" -> verbose (state m2) = true).
Proof.
  intros Hstep. apply getopt_step_result in Hstep as (_ & HH & Hc).
  destruct Hc as [-> | [-> | [-> | ->]]]; cbn zeta.
  - rewrite ProcessOptions_case_h. cbn.
    destruct (decide ("h" = "h")); [|done].
    repeat split; try done. by rewrite app_assoc.
  - rewrite ProcessOptions_case_v. cbn.
    destruct (decide ("v" = "h")); [done|].
    repeat split; try done. by rewrite app_nil_r.
  - destruct (HH eq_refl) as [a Ha].
    rewrite (ProcessOptions_case_H _ a) by done. cbn.
    destruct (decide ("H" = "h")); [done|].
    repeat split; try done; [by rewrite app_nil_r|]. intros _. eauto.
  - rewrite ProcessOptions_case_default by done. cbn.
    destruct (decide ("?" = "h")); [done|].
    repeat split; try done. by rewrite app_nil_r.
Qed.

(** The loop ends: with the budget of the state as fuel, getopt
    returns -1 before the fuel is used up. *)
Lemma ProcessOptions_loop_total (fuel : nat) :
  forall m : Machine,
    getopt_budget (gopt m) <= fuel ->
    exists m', ProcessOptions_loop w fuel m = Some m'.
Proof.
  induction fuel as [|fuel IH]; intros m Hb.
  - rewrite getopt_budget_eq in Hb. lia.
  - rewrite ProcessOptions_loop_S.
    destruct (getopt_step w options (gopt m)) as [[[c|] g] d] eqn:Hstep; [|eauto].
    apply IH.
    destruct (loop_body_effect m c g d Hstep) as [Hg _]. rewrite Hg.
    apply getopt_step_budget in Hstep. lia.
Qed.

End Getopt.

(** ** What the loop leaves behind *)

Section Scan.
Variable w : World.

Lemma getopt_char_argv0 (opts : cstring) (g g' : GetoptState) (c r : ascii)
    (rest : cstring) (d : list event) :
  getopt_char opts g c rest = (r, g', d) ->
  go_argv0 g' = go_argv0 g /\
  forall e, In e d ->
    e = EvStderr (invalid_option g c) \/ e = EvStderr (requires_argument g c).
Proof.
  unfold getopt_char.
  destruct (opt_lookup opts c) as [[| |]|]; [| |destruct rest|].
  - intros [= <- <- <-]. by split.
  - destruct rest; [destruct (go_todo g)|]; intros [= <- <- <-];
      (split; [done|]); simpl; intuition.
  - intros [= <- <- <-]. by split.
  - intros [= <- <- <-]. by split.
  - intros [= <- <- <-]. split; [done|]. simpl. intuition.
Qed.

Lemma getopt_advance_argv0 (g g1 : GetoptState) (more : bool) :
  getopt_advance w g = (g1, more) -> go_argv0 g1 = go_argv0 g.
Proof.
  unfold getopt_advance.
  destruct (if posixly_correct w then _ else _) as [sk rest].
  destruct rest as [|a rest]; [by intros [= <- <-]|].
  destruct (NONOPTION_P a); [by intros [= <- <-]|].
  destruct (decide (a = lit "--")); by intros [= <- <-].
Qed.

(** getopt never changes [argV[0]], and what it writes starts with it. *)
Lemma getopt_step_argv0 (opts : cstring) (g g' : GetoptState)
    (r : option ascii) (d : list event) :
  getopt_step w opts g = (r, g', d) ->
  go_argv0 g' = go_argv0 g /\
  forall e, In e d ->
    exists c, e = EvStderr (progname g ++ lit ": invalid option -- '" ++ [c] ++ lit "'" ++ [NL]) \/
              e = EvStderr (progname g ++ lit ": option requires an argument -- '" ++ [c] ++ lit "'" ++ [NL]).
Proof.
  unfold getopt_step. destruct (go_argv0 g) as [a0|] eqn:Ha0;
    [|intros [= <- <- <-]; by split].
  destruct (go_nextchar g) as [|x nc] eqn:Hnc.
  - destruct (getopt_advance w g) as [g1 more] eqn:Hadv.
    apply getopt_advance_argv0 in Hadv.
    destruct more; [|intros [= <- <- <-]; by split; [congruence|]].
    destruct (go_nextchar g1) as [|c1 rest]; [intros [= <- <- <-]; by split; [congruence|]|].
    destruct (getopt_char opts g1 c1 rest) as [[r' g2] dg] eqn:Hch.
    intros [= <- <- <-]. apply getopt_char_argv0 in Hch as [H0 Hd].
    split; [congruence|]. intros e He. exists c1.
    unfold invalid_option, requires_argument, progname in *.
    rewrite Hadv, Ha0 in Hd. rewrite Ha0. by apply Hd.
  - rewrite Hnc. destruct (getopt_char opts g x nc) as [[r' g2] dg] eqn:Hch.
    intros [= <- <- <-]. apply getopt_char_argv0 in Hch as [H0 Hd].
    split; [congruence|]. intros e He. exists x.
    unfold invalid_option, requires_argument, progname in *.
    rewrite Ha0 in *. by apply Hd.
Qed.

(** The usage message is none of getopt's diagnostics. *)
Lemma usage_text_not_diag (name : cstring) (c : ascii) :
  usage_text name <> name ++ lit ": invalid option -- '" ++ [c] ++ lit "'" ++ [NL] /\
  usage_text name <> name ++ lit ": option requires an argument -- '" ++ [c] ++ lit "'" ++ [NL].
Proof.
  split; intros Heq; apply (f_equal length) in Heq; unfold usage_text in Heq;
    rewrite !length_app in Heq; simpl in Heq; lia.
Qed.

Lemma getopt_step_no_usage (g g' : GetoptState) (r : option ascii)
    (d : list event) :
  getopt_step w options g = (r, g', d) ->
  count_occ event_eq_dec d (EvStderr (usage_text (progname g))) = 0.
Proof.
  intros Hstep. apply getopt_step_argv0 in Hstep as [_ Hd].
  apply count_occ_not_In. intros Hin. destruct (Hd _ Hin) as [c [[= Heq]|[= Heq]]];
    by destruct (usage_text_not_diag (progname g) c).
Qed.

Lemma getopt_step_stderr (g g' : GetoptState) (r : option ascii)
    (d : list event) :
  getopt_step w options g = (r, g', d) -> Forall is_stderr d.
Proof.
  intros Hstep. apply getopt_step_argv0 in Hstep as [_ Hd].
  apply Forall_forall. intros e He%list_elem_of_In.
  by destruct (Hd _ He) as [c [->| ->]].
Qed.

Lemma usage_events_stderr (g : GetoptState) : Forall is_stderr (usage_events g).
Proof. unfold usage_events. destruct (go_argv0 g); repeat constructor. Qed.

(** The loop, against what getopt makes of the vector with the same
    number of calls. *)
Lemma ProcessOptions_loop_spec (fuel : nat) :
  forall m m' : Machine,
    ProcessOptions_loop w fuel m = Some m' ->
    gopt m' = getopt_final w fuel (gopt m) /\
    fileName (state m') = fileName (state m) /\
    hIoTClient (state m') = hIoTClient (state m) /\
    (exists evs,
        trace m' = trace m ++ evs /\ Forall is_stderr evs /\
        count_occ event_eq_dec evs (EvStderr (usage_text (progname (gopt m))))
        = count_occ ascii_dec (getopt_results w fuel (gopt m)) "h") /\
    (~ In "H" (getopt_results w fuel (gopt m)) ->
     headers (state m') = headers (state m)).
Proof.
  induction fuel as [|fuel IH]; intros m m'; [done|].
  rewrite ProcessOptions_loop_S. cbn [getopt_final getopt_results].
  destruct (getopt_step w options (gopt m)) as [[[c|] g] d] eqn:Hstep.
  - intros Hloop. apply IH in Hloop as (Hg & Hf & Hcl & (evs & Ht & Hst & Hcnt) & Hh).
    destruct (loop_body_effect w m c g d Hstep)
      as (Eg & Ef & Ecl & Et & EnH & _).
    destruct (getopt_step_argv0 _ _ _ _ _ Hstep) as [Ha0 _].
    assert (Hname : progname g = progname (gopt m))
      by (unfold progname; by rewrite Ha0).
    rewrite Eg in Hg, Hcnt, Hh. rewrite Hname in Hcnt.
    repeat split; try congruence.
    + exists (d ++ (if decide (c = "h") then usage_events g else []) ++ evs).
      split; [by rewrite Ht, Et, <- !app_assoc|]. split.
      * apply Forall_app; split; [by eapply getopt_step_stderr|].
        apply Forall_app; split; [|done].
        destruct (decide (c = "h")); [apply usage_events_stderr|constructor].
      * rewrite !count_occ_app, (getopt_step_no_usage _ _ _ _ Hstep), Hcnt.
        destruct (decide (c = "h")) as [->|Hc].
        -- unfold usage_events, progname. rewrite Ha0.
           destruct (go_argv0 (gopt m)) as [a0|] eqn:Ha; [|by unfold getopt_step in Hstep; rewrite Ha in Hstep].
           by rewrite !count_occ_cons_eq.
        -- by rewrite count_occ_cons_neq.
    + intros Hno. rewrite Hh, EnH; [done| |]; intros ?; apply Hno; simpl; auto.
  - intros [= <-]. cbn. repeat split; try done.
    exists d. repeat split; [by eapply getopt_step_stderr|].
    apply (getopt_step_no_usage _ _ _ _ Hstep).
Qed.

(** ProcessOptions returns, and leaves behind what getopt made of the
    vector: only writes to standard error, the handle untouched, the
    headers untouched unless ['H'] was returned, and as file name a copy
    of [argV[optind]] if there is such an element. *)
Lemma ProcessOptions_spec (m : Machine) :
  exists m1 : Machine,
    ProcessOptions w AddrState m = Some (0%Z, m1) /\
    let fuel := getopt_budget (gopt m) in
    let g := getopt_final w fuel (gopt m) in
    gopt m1 = g /\
    hIoTClient (state m1) = hIoTClient (state m) /\
    (exists evs,
        trace m1 = trace m ++ evs /\ Forall is_stderr evs /\
        count_occ event_eq_dec evs (EvStderr (usage_text (progname (gopt m))))
        = count_occ ascii_dec (getopt_results w fuel (gopt m)) "h") /\
    (~ In "H" (getopt_results w fuel (gopt m)) ->
     headers (state m1) = headers (state m)) /\
    (exists k : nat,
        fileName (state m1) =
        if decide (optind g < argC g)
        then (if strdup_ok w k then argV g !! optind g else None)
        else fileName (state m)).
Proof.
  unfold ProcessOptions.
  destruct (ProcessOptions_loop_total w (getopt_budget (gopt m)) m (le_n _))
    as [m' Hloop].
  rewrite Hloop.
  apply ProcessOptions_loop_spec in Hloop as (Hg & Hf & Hcl & Hev & Hh).
  rewrite <- Hg.
  destruct (decide (optind (gopt m') < argC (gopt m'))) as [Hlt|Hge].
  - destruct (lookup_lt_is_Some_2 (argV (gopt m')) (optind (gopt m')) Hlt)
      as [a Ha].
    rewrite Ha. unfold strdup, set_state. cbn.
    eexists. split; [reflexivity|]. cbn.
    split; [done|]. split; [done|]. split; [done|]. split; [done|].
    exists (strdup_calls m').
    by destruct (strdup_ok w (strdup_calls m')).
  - eexists. split; [reflexivity|]. cbn.
    split; [done|]. split; [done|]. split; [done|]. split; [done|].
    by exists 0.
Qed.

End Scan.

Arguments SendMessage : simpl never.

Lemma main_send_closed_form (w : World) (m : Machine) :
  main_send w m =
  (match client_create w with Some _ => EOK w | None => EINVAL end,
   {| state := {| hIoTClient := client_create w; verbose := verbose (state m);
                  fileName := None; headers := None |};
      gopt := gopt m; strdup_calls := strdup_calls m;
      trace := trace m ++ EvCreate (client_create w) ::
        match client_create w with
        | Some hd =>
            EvSetVerbose hd (verbose (state m)) ::
            SendMessage_events w (set_hIoTClient (Some hd) (state m)) ++
            [EvClientClose hd]
        | None => []
        end |}).
Proof.
  unfold main_send, IOTCLIENT_Create, IOTCLIENT_SetVerbose, IOTCLIENT_Close.
  unfold bind, ret, get_state, set_state, emit, when. cbn.
  destruct (client_create w) as [hd|]; cbn.
  - rewrite SendMessage_closed_form.
    destruct m as [[cl v [f|] [h|]] g n t]; cbn;
      repeat (case_bool_decide; cbn); rewrite <- ?app_assoc; done.
  - destruct m as [[cl v [f|] [h|]] g n t]; cbn;
      repeat (case_bool_decide; cbn); done.
Qed.

(** ** Empty arguments *)

Section Nonempty.
Variable w : World.

Lemma skip_operands_elems (l : list cstring) :
  Forall nonempty l ->
  Forall nonempty (skip_operands l).1 /\ Forall nonempty (skip_operands l).2.
Proof.
  intros Hl. rewrite (skip_operands_app l) in Hl. by apply Forall_app in Hl.
Qed.

(** With no empty element in the vector, getopt keeps none in its
    segments and never sets [optarg] to an empty string. *)
Lemma getopt_step_nonempty (g g' : GetoptState) (r : option ascii)
    (d : list event) :
  getopt_step w options g = (r, g', d) ->
  Forall nonempty (go_operands g) -> Forall nonempty (go_todo g) ->
  Forall nonempty (go_operands g') /\ Forall nonempty (go_todo g') /\
  (forall a, r <> None -> optarg g' = Some a -> a <> []).
Proof.
  assert (Hchar : forall g1 x rest c g2 dg,
    getopt_char options g1 x rest = (c, g2, dg) ->
    Forall nonempty (go_operands g1) -> Forall nonempty (go_todo g1) ->
    Forall nonempty (go_operands g2) /\ Forall nonempty (go_todo g2) /\
    (forall a, optarg g2 = Some a -> a <> [])).
  { intros g1 x rest c g2 dg. unfold getopt_char. rewrite opt_lookup_options.
    destruct (decide (x = "h")); [intros [= <- <- <-] ? ?; cbn; by repeat split|].
    destruct (decide (x = "v")); [intros [= <- <- <-] ? ?; cbn; by repeat split|].
    destruct (decide (x = "H")); [|intros [= <- <- <-] ? ?; cbn; by repeat split].
    destruct rest as [|y rest]; [destruct (go_todo g1) as [|a todo']|];
      intros [= <- <- <-] Hops Htodo; cbn.
    - done.
    - inversion Htodo; subst. split; [done|]. split; [done|].
      by intros a' [= <-].
    - split; [done|]. split; [done|]. by intros a' [= <-]. }
  assert (Hend : forall g1 : GetoptState,
    Forall nonempty (go_operands g1) -> Forall nonempty (go_todo g1) ->
    Forall nonempty (go_operands g1) /\ Forall nonempty (go_todo g1) /\
    (forall a, @None ascii <> None -> optarg g1 = Some a -> a <> [])).
  { intros g1 ? ?. by repeat split. }
  unfold getopt_step.
  destruct (go_argv0 g); [|intros [= <- <- <-] ? ?; by apply Hend].
  destruct (go_nextchar g) as [|x nc] eqn:Hnc.
  - unfold getopt_advance. intros Hstep Hops Htodo.
    assert (Hsk := skip_operands_elems _ Htodo).
    destruct (if posixly_correct w then _ else _) as [sk rest] eqn:Hsel.
    assert (Forall nonempty sk /\ Forall nonempty rest) as [Hs Hr].
    { destruct (posixly_correct w); [by injection Hsel as <- <-|].
      rewrite Hsel in Hsk. by simpl in Hsk. }
    destruct rest as [|a rest].
    { injection Hstep as <- <- <-. apply Hend; cbn; [|done].
      by apply Forall_app. }
    destruct (NONOPTION_P a); [injection Hstep as <- <- <-; by apply Hend|].
    inversion Hr; subst.
    destruct (decide (a = lit "--")).
    { injection Hstep as <- <- <-. apply Hend; cbn; [|done].
      rewrite !Forall_app. auto. }
    cbn in Hstep.
    destruct (tail a) as [|c1 rest1]; [injection Hstep as <- <- <-|].
    { apply Hend; cbn; [|done]. by apply Forall_app. }
    destruct (getopt_char _ _ c1 rest1) as [[r' g2] dg] eqn:Hch.
    injection Hstep as <- <- <-.
    edestruct Hchar as (? & ? & ?); [exact Hch| | |]; cbn; [|done|auto].
    by apply Forall_app.
  - rewrite Hnc. destruct (getopt_char options g x nc) as [[r' g2] dg] eqn:Hch.
    intros [= <- <- <-] Hops Htodo.
    destruct (Hchar _ _ _ _ _ _ Hch Hops Htodo) as (? & ? & ?). auto.
Qed.

Lemma ProcessOptions_loop_nonempty (fuel : nat) :
  forall m m' : Machine,
    ProcessOptions_loop w fuel m = Some m' ->
    Forall nonempty (go_operands (gopt m)) -> Forall nonempty (go_todo (gopt m)) ->
    (forall h, headers (state m) = Some h -> h <> []) ->
    Forall nonempty (go_operands (gopt m')) /\ Forall nonempty (go_todo (gopt m')) /\
    (forall h, headers (state m') = Some h -> h <> []).
Proof.
  induction fuel as [|fuel IH]; intros m m'; [done|].
  rewrite ProcessOptions_loop_S.
  destruct (getopt_step w options (gopt m)) as [[[c|] g] d] eqn:Hstep;
    intros Hloop Hops Htodo Hh;
    destruct (getopt_step_nonempty _ _ _ _ Hstep Hops Htodo) as (Hops' & Htodo' & Harg).
  - destruct (loop_body_effect w m c g d Hstep)
      as (Eg & _ & _ & _ & EnH & EH & _).
    apply IH in Hloop; [done| | |]; rewrite ?Eg; try done.
    intros h. destruct (decide (c = "H")) as [->|Hc].
    + destruct (EH eq_refl) as (a & Ha & ->).
      destruct (strdup_ok w (strdup_calls m)); [|done].
      intros [= <-]. by apply Harg.
    + rewrite (EnH Hc). apply Hh.
  - injection Hloop as <-. by cbn.
Qed.

Lemma argV_optind_elem (g : GetoptState) (a : cstring) :
  argV g !! optind g = Some a -> a ∈ go_operands g ++ go_todo g.
Proof.
  unfold argV, optind. destruct (go_argv0 g) as [a0|]; [|done].
  rewrite lookup_cons, lookup_app_r by done. rewrite Nat.sub_diag.
  intros Ha. by eapply list_elem_of_lookup_2.
Qed.

(** After ProcessOptions, on a vector without empty elements. *)
Lemma ProcessOptions_nonempty (argv : list cstring) (m1 : Machine) :
  Forall nonempty argv ->
  ProcessOptions w AddrState (init_machine argv) = Some (0%Z, m1) ->
  (forall f, fileName (state m1) = Some f -> f <> []) /\
  (forall h, headers (state m1) = Some h -> h <> []).
Proof.
  intros Hargv. unfold ProcessOptions.
  destruct (ProcessOptions_loop w _ (init_machine argv)) as [m'|] eqn:Hloop; [|done].
  destruct (ProcessOptions_loop_spec w _ _ _ Hloop) as (_ & Hf & _).
  apply ProcessOptions_loop_nonempty in Hloop as (Hops & Htodo & Hh); cycle 1.
  { constructor. }
  { cbn. destruct argv; [constructor|]. by inversion Hargv. }
  { done. }
  destruct (decide (optind (gopt m') < argC (gopt m'))); cycle 1.
  { intros [= <-]. split; [|done]. by rewrite Hf. }
  destruct (argV (gopt m') !! optind (gopt m')) as [a|] eqn:Ha; cycle 1.
  { intros [= <-]. split; [|done]. by rewrite Hf. }
  unfold strdup, set_state. cbn. intros [= <-]. cbn. split; [|done].
  intros f. destruct (strdup_ok w (strdup_calls m')); [|done].
  intros [= <-]. apply argV_optind_elem in Ha.
  assert (Hall : Forall nonempty (go_operands (gopt m') ++ go_todo (gopt m')))
    by by apply Forall_app.
  rewrite Forall_forall in Hall. by apply Hall.
Qed.

End Nonempty.

(** ** Whole runs *)

Lemma run_eq (w : World) (argv : list cstring) (m1 : Machine) :
  ProcessOptions w AddrState (init_machine argv) = Some (0%Z, m1) ->
  run w argv = Some (main_send w m1).
Proof. intros H. unfold run, main. by rewrite H. Qed.

(** The program returns, with [EOK] when the client could be created
    and [EINVAL] when it could not. *)
Lemma main_exit_code (w : World) (argv : list cstring) :
  exists m, run w argv =
    Some (match client_create w with Some _ => EOK w | None => EINVAL end, m).
Proof.
  destruct (ProcessOptions_spec w (init_machine argv)) as (m1 & Hpo & _).
  rewrite (run_eq _ _ _ Hpo), main_send_closed_form. eauto.
Qed.

(** C2: with the client created and the stream call failing with 5, the
    exit code is [EOK] all the same: [main] drops what [SendMessage]
    returns. *)
Theorem exit_code_of_failed_send :
  exists m,
    run sample_world [lit "iotsend"] = Some (EOK sample_world, m) /\
    trace m = [EvCreate (Some 1); EvSetVerbose 1 false;
               EvStream (Some 1) default_headers STDIN_FILENO 5;
               EvClientClose 1] /\
    client_stream sample_world (Some 1) default_headers STDIN_FILENO
      <> EOK sample_world.
Proof.
  eexists. split; [vm_compute; reflexivity|].
  split; [vm_compute; reflexivity|]. vm_compute. discriminate.
Qed.

Lemma operands_nil_optind (w : World) (argv : list cstring) :
  operands w argv = [] ->
  let g0 := getopt_init argv in
  let g := getopt_final w (getopt_budget g0) g0 in
  ~ optind g < argC g.
Proof.
  unfold operands, argC. intros Hnil%(f_equal length).
  rewrite length_drop in Hnil. change (length (@nil cstring)) with 0 in Hnil.
  cbn zeta. lia.
Qed.

(** The trace of a run: what ProcessOptions wrote to standard error,
    then the client calls around the events of [SendMessage]. *)
Lemma run_trace (w : World) (argv : list cstring) :
  exists r m1 m,
    ProcessOptions w AddrState (init_machine argv) = Some (0%Z, m1) /\
    run w argv = Some (r, m) /\
    Forall is_stderr (trace m1) /\
    trace m = trace m1 ++ EvCreate (client_create w) ::
      match client_create w with
      | Some hd =>
          EvSetVerbose hd (verbose (state m1)) ::
          SendMessage_events w (set_hIoTClient (Some hd) (state m1)) ++
          [EvClientClose hd]
      | None => []
      end.
Proof.
  destruct (ProcessOptions_spec w (init_machine argv))
    as (m1 & Hpo & _ & _ & (evs & Ht & Hst & _) & _).
  eexists _, m1, _. split; [done|]. split.
  - rewrite (run_eq _ _ _ Hpo), main_send_closed_form. reflexivity.
  - split; [by rewrite Ht|]. reflexivity.
Qed.

(** A stream call in the trace of a run is the one of [SendMessage]. *)
Lemma run_stream_inv (w : World) (argv : list cstring) :
  exists r m1 m,
    ProcessOptions w AddrState (init_machine argv) = Some (0%Z, m1) /\
    run w argv = Some (r, m) /\
    (forall e, In e (trace m) ->
       match e with
       | EvStream _ _ _ _ | EvOpen _ _ | EvClose _ =>
           exists hd, client_create w = Some hd /\
             In e (SendMessage_events w (set_hIoTClient (Some hd) (state m1)))
       | _ => True
       end) /\
    (forall hd e, client_create w = Some hd ->
       In e (SendMessage_events w (set_hIoTClient (Some hd) (state m1))) ->
       In e (trace m)).
Proof.
  destruct (run_trace w argv) as (r & m1 & m & Hpo & Hrun & Hst & Ht).
  exists r, m1, m. split; [done|]. split; [done|]. split.
  - intros e. rewrite Ht, in_app_iff. intros [Hin|Hin].
    { destruct (In_stderr_inv _ _ Hst Hin) as [t ->]. done. }
    destruct Hin as [<-|Hin]; [done|].
    destruct (client_create w) as [hd|]; [|done].
    destruct Hin as [<-|Hin]; [done|].
    apply in_app_iff in Hin as [Hin|[<-|[]]]; [|done].
    destruct e; try done; eauto.
  - intros hd e Hc Hin. rewrite Ht, Hc, in_app_iff. right. right. right.
    apply in_app_iff. by left.
Qed.

(** A run with an operand that cannot be opened, when strdup finds
    memory and the client is created: the file is reported and nothing
    is streamed. *)
Lemma run_unopened_file (w : World) (argv : list cstring)
    (path : cstring) (rest : list cstring) (hd : handle) :
  operands w argv = path :: rest ->
  (forall n, strdup_ok w n = true) ->
  client_create w = Some hd ->
  sys_open w path = (-1)%Z ->
  exists r m,
    run w argv = Some (r, m) /\
    In (EvStderr file_not_found) (trace m) /\
    (forall h t fd res, ~ In (EvStream h t fd res) (trace m)).
Proof.
  intros Hops Hdup Hc Hopen.
  destruct (run_stream_inv w argv) as (r & m1 & m & Hpo & Hrun & Hinv & Hsub).
  destruct (ProcessOptions_spec w (init_machine argv))
    as (m1' & Hpo' & _ & _ & _ & _ & (k & Hf)).
  assert (m1 = m1') as <- by congruence.
  cbn zeta in Hf. rewrite Hdup in Hf.
  assert (Hhd : operands w argv !! 0 = Some path) by by rewrite Hops.
  unfold operands in Hhd. cbn zeta in Hhd.
  rewrite lookup_drop, Nat.add_0_r in Hhd.
  destruct (decide _) as [_|Hge] in Hf;
    [|by apply lookup_lt_Some in Hhd].
  change (gopt (init_machine argv)) with (getopt_init argv) in Hf.
  rewrite Hhd in Hf.
  assert (Hev : SendMessage_events w (set_hIoTClient (Some hd) (state m1)) =
    size_check_events w path ++
    [EvOpen path (-1); EvStderr file_not_found]).
  { unfold SendMessage_events. cbn. rewrite Hf, Hopen.
    by destruct (decide (-1 <> -1)%Z). }
  exists r, m. split; [done|]. split.
  - apply (Hsub hd _ Hc). rewrite Hev, in_app_iff. right. simpl. auto.
  - intros h t fd res Hin. destruct (Hinv _ Hin) as (hd' & Hc' & Hin').
    assert (hd' = hd) as -> by congruence.
    rewrite Hev, in_app_iff in Hin'. destruct Hin' as [Hin'|Hin'].
    + by destruct (In_stderr_inv _ _ (size_check_events_stderr w path) Hin').
    + simpl in Hin'. intuition congruence.
Qed.

Lemma ProcessOptions_det (w : World) (m m1 m2 : Machine) (r1 r2 : Z) :
  ProcessOptions w AddrState m = Some (r1, m1) ->
  ProcessOptions w AddrState m = Some (r2, m2) -> m1 = m2.
Proof. congruence. Qed.

(** C3: without an [H] among the options getopt returns, every stream
    call of the run carries the default header, the line
    [source:iotsend] and an empty line; with the client created and no
    operand that call is made. *)
Theorem default_headers_without_H (w : World) (argv : list cstring) :
  ~ In "H" (scanned_options w argv) ->
  exists r m,
    run w argv = Some (r, m) /\
    (forall hd t fd res,
        In (EvStream hd t fd res) (trace m) ->
        t = lit "source:iotsend" ++ [NL; NL]) /\
    (forall hd,
        client_create w = Some hd -> operands w argv = [] ->
        exists res,
          In (EvStream (Some hd) (lit "source:iotsend" ++ [NL; NL])
                STDIN_FILENO res) (trace m)).
Proof.
  intros HnoH.
  destruct (run_stream_inv w argv) as (r & m1 & m & Hpo & Hrun & Hinv & Hsub).
  destruct (ProcessOptions_spec w (init_machine argv))
    as (m1' & Hpo' & _ & _ & _ & Hh & (ok & Hf)).
  rewrite <- (ProcessOptions_det _ _ _ _ _ _ Hpo Hpo') in *.
  specialize (Hh HnoH). cbn in Hh.
  exists r, m. split; [done|]. split.
  - intros hd t fd res Hin. destruct (Hinv _ Hin) as (hd' & _ & Hin').
    apply SendMessage_stream_text in Hin'. unfold header_text in Hin'.
    cbn in Hin'. by rewrite Hh in Hin'.
  - intros hd Hc Hops. apply operands_nil_optind in Hops. cbn zeta in Hops.
    destruct (decide _) in Hf; [done|]. cbn in Hf.
    eexists. apply (Hsub hd _ Hc). unfold SendMessage_events, header_text.
    cbn. rewrite Hf, Hh. left. reflexivity.
Qed.

(** The command line [iotsend -v] has no [H]. *)
Lemma default_headers_without_H_witness :
  ~ In "H" (scanned_options sample_world [lit "iotsend"; lit "-v"]) /\
  exists r m,
    run sample_world [lit "iotsend"; lit "-v"] = Some (r, m) /\
    forall hd t fd res,
      In (EvStream hd t fd res) (trace m) ->
      t = lit "source:iotsend" ++ [NL; NL].
Proof.
  assert (Hno : ~ In "H" (scanned_options sample_world [lit "iotsend"; lit "-v"])).
  { vm_compute. intros [H|[]]. discriminate H. }
  split; [exact Hno|].
  destruct (default_headers_without_H sample_world [lit "iotsend"; lit "-v"] Hno)
    as (r & m & Hrun & Htext & _).
  exists r, m. split; [exact Hrun|exact Htext].
Defined.

(** C7: without an operand on the command line the run opens nothing,
    and the descriptor of every stream call is standard input; with the
    client created that call is made. *)
Theorem stdin_without_operand (w : World) (argv : list cstring) :
  operands w argv = [] ->
  exists r m,
    run w argv = Some (r, m) /\
    (forall hd t fd res,
        In (EvStream hd t fd res) (trace m) -> fd = STDIN_FILENO) /\
    (forall e, In e (trace m) ->
        match e with EvOpen _ _ | EvClose _ => False | _ => True end) /\
    (forall hd,
        client_create w = Some hd ->
        exists t res, In (EvStream (Some hd) t STDIN_FILENO res) (trace m)).
Proof.
  intros Hops. apply operands_nil_optind in Hops. cbn zeta in Hops.
  destruct (run_stream_inv w argv) as (r & m1 & m & Hpo & Hrun & Hinv & Hsub).
  destruct (ProcessOptions_spec w (init_machine argv))
    as (m1' & Hpo' & _ & _ & _ & _ & (ok & Hf)).
  rewrite <- (ProcessOptions_det _ _ _ _ _ _ Hpo Hpo') in *.
  destruct (decide _) in Hf; [done|]. cbn in Hf.
  assert (Hev : forall hd,
    SendMessage_events w (set_hIoTClient (Some hd) (state m1)) =
    [EvStream (Some hd) (header_text (set_hIoTClient (Some hd) (state m1)))
       STDIN_FILENO
       (client_stream w (Some hd)
          (header_text (set_hIoTClient (Some hd) (state m1))) STDIN_FILENO)]).
  { intros hd. unfold SendMessage_events. cbn. by rewrite Hf. }
  exists r, m. split; [done|]. split; [|split].
  - intros hd t fd res Hin. destruct (Hinv _ Hin) as (hd' & _ & Hin').
    rewrite Hev in Hin'. destruct Hin' as [[=]|[]]. congruence.
  - intros e Hin. specialize (Hinv e Hin).
    destruct e; try done; destruct Hinv as (hd' & _ & Hin');
      rewrite Hev in Hin'; by destruct Hin' as [|[]].
  - intros hd Hc. eexists _, _. apply (Hsub hd _ Hc). rewrite Hev. by left.
Qed.

(** The command line [iotsend -v] has no operand. *)
Lemma stdin_without_operand_witness :
  operands sample_world [lit "iotsend"; lit "-v"] = [] /\
  exists r m,
    run sample_world [lit "iotsend"; lit "-v"] = Some (r, m) /\
    forall hd t fd res,
      In (EvStream hd t fd res) (trace m) -> fd = STDIN_FILENO.
Proof.
  split; [reflexivity|].
  destruct (stdin_without_operand sample_world [lit "iotsend"; lit "-v"] eq_refl)
    as (r & m & Hrun & Hfd & _).
  exists r, m. split; [exact Hrun|exact Hfd].
Defined.

(** C6, as the code has it: ProcessOptions writes the usage message once
    for every ['h'] that getopt returns and at no other occasion, so the
    message appears exactly when [-h] is among the options; an option
    getopt does not know comes back as ['?'], which the switch ignores. *)
Theorem usage_only_on_help (w : World) (argv : list cstring) :
  let name := progname (getopt_init argv) in
  exists m,
    ProcessOptions w AddrState (init_machine argv) = Some (0%Z, m) /\
    count_occ event_eq_dec (trace m) (EvStderr (usage_text name))
    = count_occ ascii_dec (scanned_options w argv) "h" /\
    (In (EvStderr (usage_text name)) (trace m) <->
     In "h" (scanned_options w argv)).
Proof.
  intros name.
  destruct (ProcessOptions_spec w (init_machine argv))
    as (m & Hpo & _ & _ & (evs & Ht & _ & Hcnt) & _).
  change (trace (init_machine argv) ++ evs) with evs in Ht. subst evs.
  change (gopt (init_machine argv)) with (getopt_init argv) in Hcnt.
  fold (scanned_options w argv) in Hcnt. fold name in Hcnt.
  exists m. split; [done|]. split; [exact Hcnt|].
  rewrite (count_occ_In event_eq_dec), (count_occ_In ascii_dec).
  by rewrite Hcnt.
Qed.

(** C6 as stated fails: [-x] is not an option of the program, getopt
    reports it and returns ['?'], and the run prints no usage message. *)
Lemma unknown_option_prints_no_usage :
  scanned_options sample_world [lit "iotsend"; lit "-x"] = ["?"] /\
  exists r m,
    run sample_world [lit "iotsend"; lit "-x"] = Some (r, m) /\
    trace m = [EvStderr (lit "iotsend: invalid option -- 'x'" ++ [NL]);
               EvCreate (Some 1); EvSetVerbose 1 false;
               EvStream (Some 1) default_headers STDIN_FILENO 5;
               EvClientClose 1] /\
    ~ In (EvStderr (usage_text (lit "iotsend"))) (trace m).
Proof.
  split; [vm_compute; reflexivity|].
  eexists _, _. split; [vm_compute; reflexivity|].
  split; [vm_compute; reflexivity|].
  intros [H|[H|[H|[H|[H|[]]]]]]; discriminate H.
Qed.

Lemma replace_semicolons_id (h : cstring) :
  ~ In ";" h -> replace_semicolons h = h.
Proof.
  intros Hno. rewrite replace_semicolons_map.
  induction h as [|c h IH]; [done|]. cbn [map].
  rewrite subst_semicolon_other, IH; [done| |]; intros ?; apply Hno; simpl; auto.
Qed.

(** C9, as the code has it: [SendMessage] leaves the verbose flag and
    the file name alone and rewrites the headers string in place, each
    [';'] to a newline, so that only a string without [';'] is left as
    it was; the clean-up at the end of [main] then releases both strings
    and resets the two pointers. *)
Theorem configuration_after_parsing (w : World) (m : Machine) :
  let sent := state (SendMessage w AddrState m).2 in
  let final := state (main_send w m).2 in
  verbose sent = verbose (state m) /\
  fileName sent = fileName (state m) /\
  headers sent = replace_semicolons <$> headers (state m) /\
  (forall h, headers (state m) = Some h -> ~ In ";" h -> headers sent = Some h) /\
  verbose final = verbose (state m) /\
  fileName final = None /\
  headers final = None.
Proof.
  cbn zeta. rewrite SendMessage_state, main_send_closed_form. cbn.
  repeat split. intros h Hh Hno. rewrite Hh. cbn. by rewrite replace_semicolons_id.
Qed.

(** C9 as stated fails: the headers string that ProcessOptions stored is
    changed by the send operation. *)
Lemma send_changes_headers :
  exists m1,
    ProcessOptions sample_world AddrState
      (init_machine [lit "iotsend"; lit "-H"; lit "a:1;b:2"]) = Some (0%Z, m1) /\
    headers (state m1) = Some (lit "a:1;b:2") /\
    headers (state (SendMessage sample_world AddrState m1).2)
    = Some (lit "a:1" ++ [NL] ++ lit "b:2") /\
    headers (state (SendMessage sample_world AddrState m1).2)
    <> headers (state m1).
Proof.
  eexists. split; [vm_compute; reflexivity|].
  split; [vm_compute; reflexivity|].
  split; [vm_compute; reflexivity|]. vm_compute. discriminate.
Qed.

(** C10, as the code has it: on a command line without an empty
    argument the file name and the headers are, when present, not
    empty. *)
Theorem fields_nonempty (w : World) (argv : list cstring) :
  Forall (fun a : cstring => a <> []) argv ->
  exists m,
    ProcessOptions w AddrState (init_machine argv) = Some (0%Z, m) /\
    (forall f, fileName (state m) = Some f -> f <> []) /\
    (forall h, headers (state m) = Some h -> h <> []).
Proof.
  intros Hargv.
  destruct (ProcessOptions_spec w (init_machine argv)) as (m & Hpo & _).
  exists m. split; [done|]. by apply (ProcessOptions_nonempty w argv).
Qed.

(** The command line [iotsend -H k:v msg.txt] has no empty argument. *)
Lemma fields_nonempty_witness :
  Forall (fun a : cstring => a <> [])
    [lit "iotsend"; lit "-H"; lit "k:v"; lit "msg.txt"] /\
  exists m,
    ProcessOptions sample_world AddrState
      (init_machine [lit "iotsend"; lit "-H"; lit "k:v"; lit "msg.txt"])
    = Some (0%Z, m) /\
    (forall f, fileName (state m) = Some f -> f <> []) /\
    (forall h, headers (state m) = Some h -> h <> []).
Proof.
  assert (Hne : Forall (fun a : cstring => a <> [])
                  [lit "iotsend"; lit "-H"; lit "k:v"; lit "msg.txt"]).
  { repeat constructor; discriminate. }
  split; [exact Hne|].
  exact (fields_nonempty sample_world _ Hne).
Defined.

(** C10 as stated fails: an empty argument behind [-H] and an empty
    operand are stored as they are. *)
Lemma empty_fields_after_parsing :
  exists m,
    ProcessOptions sample_world AddrState
      (init_machine [lit "iotsend"; lit "-H"; lit ""; lit ""]) = Some (0%Z, m) /\
    headers (state m) = Some [] /\
    fileName (state m) = Some [].
Proof.
  eexists. split; [vm_compute; reflexivity|]. split; vm_compute; reflexivity.
Qed.

(** ** Runs of the sample world *)

(** [iotsend -H "a:1;b:2"]: the header text of the stream call. *)
Example run_with_headers :
  exists m,
    run sample_world [lit "iotsend"; lit "-H"; lit "a:1;b:2"]
    = Some (0%Z, m) /\
    trace m = [EvCreate (Some 1); EvSetVerbose 1 false;
               EvStream (Some 1) (lit "a:1" ++ [NL] ++ lit "b:2")
                 STDIN_FILENO 5;
               EvClientClose 1].
Proof. eexists. split; vm_compute; reflexivity. Qed.

(** [iotsend -v msg.txt]: open, stream, close. *)
Example run_with_file :
  exists m,
    run sample_world [lit "iotsend"; lit "-v"; lit "msg.txt"]
    = Some (0%Z, m) /\
    trace m = [EvCreate (Some 1); EvSetVerbose 1 true;
               EvOpen (lit "msg.txt") 3;
               EvStream (Some 1) default_headers 3 5;
               EvClose 3; EvClientClose 1].
Proof. eexists. split; vm_compute; reflexivity. Qed.

(** [iotsend gone.txt -h]: the operand is moved behind the option, the
    usage message is written, the file is reported and nothing is
    sent; the exit code is [EOK] again. *)
Example run_with_missing_file :
  exists m,
    run sample_world [lit "iotsend"; lit "gone.txt"; lit "-h"]
    = Some (0%Z, m) /\
    argV (gopt m) = [lit "iotsend"; lit "-h"; lit "gone.txt"] /\
    trace m = [EvStderr (usage_text (lit "iotsend"));
               EvCreate (Some 1); EvSetVerbose 1 false;
               EvOpen (lit "gone.txt") (-1);
               EvStderr file_not_found;
               EvClientClose 1].
Proof. eexists. split; [vm_compute; reflexivity|]. split; vm_compute; reflexivity. Qed.

(** * Further properties of the program *)

(** ** More on the header rewriting *)


Lemma subst_semicolon_NL (c : ascii) : subst_semicolon c = NL <-> ends_line c.
Proof.
  unfold subst_semicolon, ends_line.
  destruct (decide (c = ";")); [tauto|]. split; [auto|]. by intros [|].
Qed.



(** X2: the header text of a [-H] string ends with the empty line that
    closes the properties exactly when the string ends with two
    characters that are each [';'] or a newline; nothing is appended
    to a string that does not. *)
Theorem header_blank_line (h : cstring) :
  (exists p, replace_semicolons h = p ++ [NL; NL]) <->
  (exists p a b, h = p ++ [a; b] /\ ends_line a /\ ends_line b).
Proof.
  rewrite replace_semicolons_map. split.
  - intros (p & Hp).
    apply map_eq_app in Hp as (p' & t & -> & _ & Ht).
    destruct t as [|a [|b [|c t]]]; try discriminate Ht.
    injection Ht as Ha Hb. exists p', a, b.
    split; [done|]. by rewrite <- !subst_semicolon_NL.
  - intros (p & a & b & -> & Ha & Hb). exists (map subst_semicolon p).
    rewrite map_app. cbn [map]. apply subst_semicolon_NL in Ha, Hb.
    by rewrite Ha, Hb.
Qed.

Lemma replace_loop_int32_spec (fuel : nat) :
  forall (i : nat) (h : cstring),
    (Z.of_nat (length h) <= INT_MAX)%Z ->
    i <= length h -> length h - i < fuel ->
    replace_loop_int32 fuel (Z.of_nat i) h
    = LoopExit (take i h ++ map subst_semicolon (drop i h)).
Proof.
  induction fuel as [|fuel IH]; intros i h Hmax Hi Hfuel; [lia|].
  cbn [replace_loop_int32]. unfold strlen.
  destruct (decide (Z.of_nat i < Z.of_nat (length h))%Z) as [Hlt|Hge].
  - assert (Hlt' : i < length h) by lia.
    destruct (decide (Z.of_nat i + 1 <= INT_MAX)%Z) as [_|Hov]; [|lia].
    rewrite Nat2Z.id.
    replace (Z.of_nat i + 1)%Z with (Z.of_nat (S i)) by lia.
    destruct (lookup_lt_is_Some_2 h i Hlt') as [c Hc].
    rewrite (drop_S h c i Hc). cbn [map].
    destruct (decide (h !! i = Some ";")) as [Hsemi|Hother].
    + assert (c = ";") by congruence. subst c.
      rewrite IH by (rewrite ?length_insert; lia).
      rewrite drop_insert_lt by lia.
      rewrite (take_S_r _ i NL) by (by apply list_lookup_insert_eq).
      rewrite take_insert_ge by lia.
      rewrite subst_semicolon_semi. by rewrite <- app_assoc.
    + rewrite IH by lia.
      rewrite (take_S_r h i c Hc).
      rewrite subst_semicolon_other by congruence.
      by rewrite <- app_assoc.
  - rewrite drop_ge by lia. rewrite take_ge by lia. simpl. by rewrite app_nil_r.
Qed.

(** X3: the loop as the source types it, with [i] a 32-bit [int] that
    is compared with [strlen]: on a string of at most [INT_MAX]
    characters the loop leaves through its exit test, after [strlen]
    turns and however many more it is allowed, with the counter in
    range all the way and every [';'] replaced; its result is that of
    the loop of the model. *)
Theorem header_rewrite_int_counter (h : cstring) (fuel : nat) :
  (Z.of_nat (strlen h) <= INT_MAX)%Z ->
  strlen h < fuel ->
  replace_loop_int32 fuel 0 h = LoopExit (map subst_semicolon h) /\
  replace_loop_int32 fuel 0 h = LoopExit (replace_semicolons h).
Proof.
  intros Hmax Hfuel. rewrite replace_semicolons_map.
  assert (H := replace_loop_int32_spec fuel 0 h Hmax (Nat.le_0_l _)).
  unfold strlen in Hfuel. change (Z.of_nat 0) with 0%Z in H.
  rewrite H by lia. by split.
Qed.

(** The string [k:v;x:y] and one more turn than it has characters. *)
Lemma header_rewrite_int_counter_witness :
  (Z.of_nat (strlen (lit "k:v;x:y")) <= INT_MAX)%Z /\
  strlen (lit "k:v;x:y") < 8 /\
  replace_loop_int32 8 0 (lit "k:v;x:y")
  = LoopExit (lit "k:v" ++ [NL] ++ lit "x:y").
Proof.
  assert (Hlen : (Z.of_nat (strlen (lit "k:v;x:y")) <= INT_MAX)%Z)
    by (vm_compute; discriminate).
  assert (Hfuel : strlen (lit "k:v;x:y") < 8) by (vm_compute; repeat constructor).
  split; [exact Hlen|]. split; [exact Hfuel|].
  exact (proj1 (header_rewrite_int_counter (lit "k:v;x:y") 8 Hlen Hfuel)).
Defined.

(** ** More on SendMessage *)

Lemma size_warning_not_file_not_found : size_warning <> file_not_found.
Proof. vm_compute. discriminate. Qed.

(** X4: the size warning is written exactly when stat succeeds on the
    file name and reports more than [MAX_IOT_MSG_SIZE] bytes: a file of
    exactly that size, and a file stat fails on, draw no warning. *)
Theorem size_warning_iff (w : World) (m : Machine) (path : cstring) :
  fileName (state m) = Some path ->
  let evs := events_since m (SendMessage w AddrState m).2 in
  In (EvStderr size_warning) evs <->
  exists st_size,
    sys_stat w path = Some st_size /\ (st_size > MAX_IOT_MSG_SIZE w)%Z.
Proof.
  intros Hf evs. subst evs. rewrite SendMessage_events_since.
  unfold SendMessage_events, size_check_events. rewrite Hf.
  assert (Htail : ~ In (EvStderr size_warning)
    (EvOpen path (sys_open w path) ::
     (if decide (sys_open w path <> -1)%Z
      then [EvStream (hIoTClient (state m)) (header_text (state m))
              (sys_open w path)
              (client_stream w (hIoTClient (state m)) (header_text (state m))
                 (sys_open w path));
            EvClose (sys_open w path)]
      else [EvStderr file_not_found]))).
  { destruct (decide (sys_open w path <> -1)%Z); simpl.
    - intros [H|[H|[H|[]]]]; discriminate H.
    - intros [H|[H|[]]]; [discriminate H|].
      injection H as H. by apply size_warning_not_file_not_found. }
  rewrite in_app_iff. split.
  - intros [Hin|Hin]; [|done].
    destruct (sys_stat w path) as [sz|]; [|done].
    destruct (bool_decide (sz > MAX_IOT_MSG_SIZE w)%Z) eqn:Hbig; [|done].
    apply bool_decide_eq_true in Hbig. eauto.
  - intros (sz & -> & Hbig). left.
    rewrite bool_decide_eq_true_2 by done. simpl. auto.
Qed.

(** [big.bin] has 300000 bytes, the limit of the sample world is 262144. *)
Lemma size_warning_iff_witness :
  fileName (state (machine_with (Some (lit "big.bin")) None)) = Some (lit "big.bin") /\
  In (EvStderr size_warning)
     (events_since (machine_with (Some (lit "big.bin")) None)
        (SendMessage sample_world AddrState
           (machine_with (Some (lit "big.bin")) None)).2).
Proof.
  split; [reflexivity|].
  apply (proj2 (size_warning_iff sample_world
           (machine_with (Some (lit "big.bin")) None) (lit "big.bin") eq_refl)).
  exists 300000%Z. split; reflexivity.
Defined.

(** X5: what [SendMessage] returns: the value of the stream call when
    it made one, and [EINVAL], behind the message [File not found],
    when it made none. *)
Theorem SendMessage_return_value (w : World) (m : Machine) :
  let r := (SendMessage w AddrState m).1 in
  let evs := events_since m (SendMessage w AddrState m).2 in
  (forall hd t fd res,
      In (EvStream hd t fd res) evs ->
      r = res /\ res = client_stream w hd t fd) /\
  ((forall hd t fd res, ~ In (EvStream hd t fd res) evs) ->
   r = EINVAL /\ In (EvStderr file_not_found) evs).
Proof.
  intros r evs. subst r evs.
  rewrite SendMessage_events_since, SendMessage_fst.
  unfold SendMessage_events, SendMessage_result.
  destruct (fileName (state m)) as [path|].
  - assert (Hw := size_check_events_stderr w path).
    destruct (decide (sys_open w path <> -1)%Z) as [Hok|Hbad]; split.
    + intros hd t fd res. rewrite in_app_iff. intros [Hin|Hin].
      { by destruct (In_stderr_inv _ _ Hw Hin). }
      destruct Hin as [H|[H|[H|[]]]]; try discriminate H.
      by injection H as <- <- <- <-.
    + intros Hno. exfalso. eapply Hno. rewrite in_app_iff. right.
      right. left. reflexivity.
    + intros hd t fd res. rewrite in_app_iff. intros [Hin|Hin].
      { by destruct (In_stderr_inv _ _ Hw Hin). }
      destruct Hin as [H|[H|[]]]; discriminate H.
    + intros _. split; [done|]. rewrite in_app_iff. right. simpl. auto.
  - destruct (decide (STDIN_FILENO <> -1)%Z) as [_|Hbad];
      [|by exfalso; apply Hbad]. split.
    + intros hd t fd res [H|[]]. by injection H as <- <- <- <-.
    + intros Hno. exfalso. eapply Hno. left. reflexivity.
Qed.

(** ** The configuration ProcessOptions builds *)

Section Config.
Variable w : World.

(** The loop, option by option: [-v] sets the flag for good, every
    [-H] replaces the headers by a copy of its argument, or by NULL
    when strdup has no memory. *)
Lemma ProcessOptions_loop_config (fuel : nat) :
  forall m m' : Machine,
    ProcessOptions_loop w fuel m = Some m' ->
    (verbose (state m') = true <->
     verbose (state m) = true \/ In "v" (getopt_results w fuel (gopt m))) /\
    ((forall n, strdup_ok w n = true) ->
     headers (state m') =
     match last (getopt_H_args w fuel (gopt m)) with
     | Some a => Some a
     | None => headers (state m)
     end) /\
    ((forall n, strdup_ok w n = false) ->
     headers (state m) = None -> headers (state m') = None).
Proof.
  induction fuel as [|fuel IH]; intros m m'; [done|].
  rewrite ProcessOptions_loop_S. cbn [getopt_results getopt_H_args].
  destruct (getopt_step w options (gopt m)) as [[[c|] g] d] eqn:Hstep.
  - intros Hloop. apply IH in Hloop as (Hv & Hok & Hoom).
    destruct (loop_body_effect w m c g d Hstep)
      as (Eg & _ & _ & _ & EnH & EH & Env & Ev).
    rewrite Eg in Hv, Hok. split; [|split].
    + rewrite Hv. destruct (decide (c = "v")) as [->|Hc].
      * rewrite (Ev eq_refl). simpl. tauto.
      * rewrite (Env Hc). simpl. split; [tauto|].
        intros [?|[?|?]]; [tauto|congruence|tauto].
    + intros Hdup. rewrite (Hok Hdup), last_app.
      destruct (last (getopt_H_args w fuel g)); [done|].
      destruct (decide (c = "H")) as [->|Hc].
      * destruct (EH eq_refl) as (a & Ha & ->). by rewrite Ha, Hdup.
      * by rewrite (EnH Hc).
    + intros Hdup Hnone. apply (Hoom Hdup).
      destruct (decide (c = "H")) as [->|Hc].
      * destruct (EH eq_refl) as (a & _ & ->). by rewrite Hdup.
      * by rewrite (EnH Hc).
  - intros [= <-]. cbn. split; [|done]. split; [auto|]. by intros [|[]].
Qed.

(** Behind the loop ProcessOptions only sets the file name. *)
Lemma ProcessOptions_after_loop (m m1 : Machine) (r : Z) :
  ProcessOptions w AddrState m = Some (r, m1) ->
  exists m',
    ProcessOptions_loop w (getopt_budget (gopt m)) m = Some m' /\
    verbose (state m1) = verbose (state m') /\
    headers (state m1) = headers (state m').
Proof.
  unfold ProcessOptions.
  destruct (ProcessOptions_loop w _ m) as [m'|]; [|done].
  intros Hpo. exists m'. split; [done|]. revert Hpo.
  destruct (decide _); [|by intros [= _ <-]].
  destruct (argV (gopt m') !! optind (gopt m')); [|by intros [= _ <-]].
  unfold strdup, set_state. cbn. by intros [= _ <-].
Qed.

Lemma ProcessOptions_config (argv : list cstring) (m1 : Machine) :
  ProcessOptions w AddrState (init_machine argv) = Some (0%Z, m1) ->
  (verbose (state m1) = true <-> In "v" (scanned_options w argv)) /\
  ((forall n, strdup_ok w n = true) ->
   headers (state m1) = last (header_arguments w argv) /\
   fileName (state m1) = operands w argv !! 0) /\
  ((forall n, strdup_ok w n = false) ->
   headers (state m1) = None /\ fileName (state m1) = None).
Proof.
  intros Hpo.
  destruct (ProcessOptions_spec w (init_machine argv))
    as (m1' & Hpo' & _ & _ & _ & _ & (k & Hf)).
  assert (m1' = m1) as -> by congruence. cbn zeta in Hf.
  change (gopt (init_machine argv)) with (getopt_init argv) in Hf.
  change (fileName (state (init_machine argv))) with (@None cstring) in Hf.
  assert (Hop : operands w argv !! 0 =
    argV (getopt_final w (getopt_budget (getopt_init argv)) (getopt_init argv))
    !! optind (getopt_final w (getopt_budget (getopt_init argv)) (getopt_init argv))).
  { unfold operands. cbn zeta. by rewrite lookup_drop, Nat.add_0_r. }
  destruct (ProcessOptions_after_loop _ _ _ Hpo) as (m' & Hloop & Ev & Eh).
  apply ProcessOptions_loop_config in Hloop as (Hv & Hok & Hoom).
  change (gopt (init_machine argv)) with (getopt_init argv) in Hv, Hok.
  fold (scanned_options w argv) in Hv. fold (header_arguments w argv) in Hok.
  change (verbose (state (init_machine argv))) with false in Hv.
  change (headers (state (init_machine argv))) with (@None cstring) in Hok.
  rewrite Ev, Eh. split; [|split].
  - rewrite Hv. split; [intros [H|H]; [discriminate H|exact H]|auto].
  - intros Hdup. split.
    + rewrite (Hok Hdup). by destruct (last (header_arguments w argv)).
    + rewrite Hf, Hdup, Hop. destruct (decide _) as [|Hge]; [done|].
      symmetry. apply lookup_ge_None_2. unfold argC in Hge. lia.
  - intros Hdup. split; [by apply Hoom|].
    rewrite Hf, Hdup. by destruct (decide _).
Qed.

End Config.

(** ** More on whole runs *)

Lemma SendMessage_events_shape (w : World) (s : IOTSendState) :
  Forall (fun e => is_client_call e = false) (SendMessage_events w s) /\
  (forall h t fd res,
      In (EvStream h t fd res) (SendMessage_events w s) -> h = hIoTClient s) /\
  (forall p fd,
      In (EvOpen p fd) (SendMessage_events w s) ->
      fileName s = Some p /\ fd = sys_open w p) /\
  stream_calls (SendMessage_events w s) <= 1 /\
  (stream_calls (SendMessage_events w s) = 1 <->
   forall p, ~ In (EvOpen p (-1)) (SendMessage_events w s)).
Proof.
  unfold SendMessage_events, stream_calls.
  destruct (fileName s) as [path|].
  - assert (Hw := size_check_events_stderr w path).
    assert (Hwc : Forall (fun e => is_client_call e = false)
                    (size_check_events w path)).
    { eapply Forall_impl; [exact Hw|]. by intros []. }
    assert (Hws : List.filter is_stream (size_check_events w path) = []).
    { clear Hwc. induction Hw as [|e l He _ IH]; [done|].
      simpl. by destruct e. }
    split; [|split; [|split; [|split]]].
    + apply Forall_app. split; [done|].
      destruct (decide (sys_open w path <> -1)%Z); by repeat constructor.
    + intros h t fd res. rewrite in_app_iff. intros [Hin|Hin].
      { by destruct (In_stderr_inv _ _ Hw Hin). }
      destruct (decide (sys_open w path <> -1)%Z); simpl in Hin;
        intuition congruence.
    + intros p fd. rewrite in_app_iff. intros [Hin|Hin].
      { by destruct (In_stderr_inv _ _ Hw Hin). }
      destruct (decide (sys_open w path <> -1)%Z); simpl in Hin;
        intuition congruence.
    + rewrite List.filter_app, Hws. cbn [app List.filter is_stream].
      destruct (decide (sys_open w path <> -1)%Z); simpl; lia.
    + rewrite List.filter_app, Hws. cbn [app List.filter is_stream].
      destruct (decide (sys_open w path <> -1)%Z) as [Hok|Hbad]; simpl.
      * split; [|done]. intros _ p. rewrite in_app_iff. intros [Hin|Hin].
        { by destruct (In_stderr_inv _ _ Hw Hin). }
        simpl in Hin. destruct Hin as [[= _ Heq]|[|[|]]]; done.
      * split; [done|]. intros Hno. exfalso.
        apply (Hno path). rewrite in_app_iff. right. left.
        f_equal. lia.
  - split; [by repeat constructor|]. split; [|split; [|split]].
    + intros h t fd res [[=]|[]]. done.
    + by intros p fd [|[]].
    + cbn. lia.
    + cbn. split; [|done]. by intros _ p [|[]].
Qed.

(** A run from end to end: the exit code, and the trace in three parts. *)
Lemma run_full (w : World) (argv : list cstring) :
  exists m1 m,
    ProcessOptions w AddrState (init_machine argv) = Some (0%Z, m1) /\
    run w argv =
      Some (match client_create w with Some _ => EOK w | None => EINVAL end, m) /\
    Forall is_stderr (trace m1) /\
    count_occ event_eq_dec (trace m1)
      (EvStderr (usage_text (progname (getopt_init argv))))
    = count_occ ascii_dec (scanned_options w argv) "h" /\
    trace m = trace m1 ++ EvCreate (client_create w) ::
      match client_create w with
      | Some hd =>
          EvSetVerbose hd (verbose (state m1)) ::
          SendMessage_events w (set_hIoTClient (Some hd) (state m1)) ++
          [EvClientClose hd]
      | None => []
      end.
Proof.
  destruct (ProcessOptions_spec w (init_machine argv))
    as (m1 & Hpo & _ & _ & (evs & Ht & Hst & Hcnt) & _).
  change (trace (init_machine argv) ++ evs) with evs in Ht. subst evs.
  eexists m1, _. split; [done|]. split.
  - rewrite (run_eq _ _ _ Hpo), main_send_closed_form. reflexivity.
  - split; [done|]. split; [exact Hcnt|reflexivity].
Qed.

Lemma stream_calls_stderr (evs : list event) :
  Forall is_stderr evs -> stream_calls evs = 0.
Proof.
  unfold stream_calls. induction 1 as [|e l He _ IH]; [done|].
  simpl. by destruct e.
Qed.

Lemma stream_calls_app (l1 l2 : list event) :
  stream_calls (l1 ++ l2) = stream_calls l1 + stream_calls l2.
Proof. unfold stream_calls. by rewrite List.filter_app, length_app. Qed.

(** X6: when [IOTCLIENT_Create] returns NULL the run ends with
    [EINVAL] and, behind what the option parsing wrote to standard
    error, does nothing but that one call: no file is opened, nothing
    is streamed, no client call follows. *)
Theorem client_creation_failure (w : World) (argv : list cstring) :
  client_create w = None ->
  exists m diag,
    run w argv = Some (EINVAL, m) /\
    Forall is_stderr diag /\
    trace m = diag ++ [EvCreate None].
Proof.
  intros Hc.
  destruct (run_full w argv) as (m1 & m & _ & Hrun & Hst & _ & Ht).
  rewrite Hc in Hrun, Ht. by exists m, (trace m1).
Qed.

Lemma client_creation_failure_witness :
  client_create no_client_world = None /\
  exists m diag,
    run no_client_world [lit "iotsend"; lit "msg.txt"] = Some (EINVAL, m) /\
    Forall is_stderr diag /\
    trace m = diag ++ [EvCreate None].
Proof.
  split; [reflexivity|].
  exact (client_creation_failure no_client_world
           [lit "iotsend"; lit "msg.txt"] eq_refl).
Defined.

(** X7: when the client is created the run ends with [EOK] and brackets
    the send: after what ProcessOptions wrote come the create and
    [IOTCLIENT_SetVerbose] with the flag that [-v] set, then the call
    of [SendMessage] on the state with the handle stored, and behind
    its events [IOTCLIENT_Close], once and last, also when the file
    could not be opened; the stream call gets the created handle and
    [SendMessage] makes no client call of its own. *)
Theorem client_lifecycle (w : World) (argv : list cstring) (hd : handle) :
  client_create w = Some hd ->
  exists m1 m,
    let sent := (SendMessage w AddrState (at_send hd m1)).2 in
    let send := events_since (at_send hd m1) sent in
    ProcessOptions w AddrState (init_machine argv) = Some (0%Z, m1) /\
    run w argv = Some (EOK w, m) /\
    Forall is_stderr (trace m1) /\
    trace m = trace sent ++ [EvClientClose hd] /\
    trace sent = trace m1 ++
                 [EvCreate (Some hd); EvSetVerbose hd (verbose (state m1))] ++
                 send /\
    send <> [] /\
    Forall (fun e => is_client_call e = false) send /\
    (forall h t fd res, In (EvStream h t fd res) send -> h = Some hd) /\
    (verbose (state m1) = true <-> In "v" (scanned_options w argv)).
Proof.
  intros Hc.
  destruct (run_full w argv) as (m1 & m & Hpo & Hrun & Hst & _ & Ht).
  rewrite Hc in Hrun, Ht.
  destruct (SendMessage_events_shape w (set_hIoTClient (Some hd) (state m1)))
    as (Hcl & Hh & _).
  destruct (ProcessOptions_config w argv m1 Hpo) as (Hv & _).
  exists m1, m. cbn zeta.
  rewrite SendMessage_events_since, SendMessage_closed_form.
  change (state (at_send hd m1)) with (set_hIoTClient (Some hd) (state m1)).
  cbn [snd trace at_send].
  split; [done|]. split; [done|]. split; [done|].
  split; [by rewrite Ht, <- !app_assoc|]. split; [by rewrite <- !app_assoc|].
  split; [|done].
  unfold SendMessage_events. destruct (fileName _); [|done].
  by destruct (size_check_events w l).
Qed.

Lemma client_lifecycle_witness :
  client_create sample_world = Some 1 /\
  exists m1 m,
    ProcessOptions sample_world AddrState
      (init_machine [lit "iotsend"; lit "-v"; lit "gone.txt"]) = Some (0%Z, m1) /\
    run sample_world [lit "iotsend"; lit "-v"; lit "gone.txt"]
    = Some (EOK sample_world, m) /\
    trace m = trace (SendMessage sample_world AddrState (at_send 1 m1)).2 ++
              [EvClientClose 1].
Proof.
  split; [reflexivity|].
  destruct (client_lifecycle sample_world
              [lit "iotsend"; lit "-v"; lit "gone.txt"] 1 eq_refl)
    as (m1 & m & Hpo & Hrun & _ & Ht & _).
  exists m1, m. split; [exact Hpo|]. split; [exact Hrun|exact Ht].
Defined.

(** X8: a run makes at most one stream call, and exactly one unless the
    client could not be created or the open of the file failed. *)
Theorem single_stream_call (w : World) (argv : list cstring) :
  exists r m,
    run w argv = Some (r, m) /\
    stream_calls (trace m) <= 1 /\
    (stream_calls (trace m) = 1 <->
     client_create w <> None /\ forall p, ~ In (EvOpen p (-1)) (trace m)).
Proof.
  destruct (run_full w argv) as (m1 & m & _ & Hrun & Hst & _ & Ht).
  eexists _, m. split; [exact Hrun|].
  assert (Hdiag := stream_calls_stderr _ Hst).
  assert (Hno_open : forall p fd, ~ In (EvOpen p fd) (trace m1)).
  { intros p fd Hin. by destruct (In_stderr_inv _ _ Hst Hin). }
  rewrite Ht, stream_calls_app, Hdiag.
  destruct (client_create w) as [hd|].
  - destruct (SendMessage_events_shape w (set_hIoTClient (Some hd) (state m1)))
      as (_ & _ & _ & Hle & Hone).
    set (send := SendMessage_events w (set_hIoTClient (Some hd) (state m1))) in *.
    assert (Hcnt : stream_calls
              (EvCreate (Some hd) :: EvSetVerbose hd (verbose (state m1)) ::
               send ++ [EvClientClose hd]) = stream_calls send).
    { change (stream_calls (send ++ [EvClientClose hd]) = stream_calls send).
      rewrite stream_calls_app. cbn. lia. }
    rewrite Hcnt. cbn [Nat.add]. split; [done|]. rewrite Hone. split.
    + intros Hsend. split; [done|]. intros p. rewrite in_app_iff.
      intros [Hin|Hin]; [by apply (Hno_open p (-1)%Z)|].
      destruct Hin as [H|[H|Hin]]; [discriminate H|discriminate H|].
      apply in_app_iff in Hin as [Hin|[H|[]]]; [|discriminate H].
      by apply (Hsend p).
    + intros [_ Hall] p Hin. apply (Hall p). rewrite in_app_iff.
      right. right. right. apply in_app_iff. by left.
  - cbn. split; [lia|]. split; [done|]. by intros [? _].
Qed.

(** X9: the headers are the argument of the last [-H] of the command
    line (earlier ones are overwritten), and none when there is no
    [-H], as long as strdup finds memory. *)
Theorem last_H_option_wins (w : World) (argv : list cstring) :
  (forall n, strdup_ok w n = true) ->
  exists m,
    ProcessOptions w AddrState (init_machine argv) = Some (0%Z, m) /\
    headers (state m) = last (header_arguments w argv).
Proof.
  intros Hdup.
  destruct (ProcessOptions_spec w (init_machine argv)) as (m & Hpo & _).
  exists m. split; [done|].
  by destruct (ProcessOptions_config w argv m Hpo) as (_ & Hok & _);
    destruct (Hok Hdup).
Qed.

Lemma last_H_option_wins_witness :
  (forall n, strdup_ok sample_world n = true) /\
  exists m,
    ProcessOptions sample_world AddrState
      (init_machine [lit "iotsend"; lit "-H"; lit "a:1"; lit "-Hb:2"])
    = Some (0%Z, m) /\
    headers (state m) = Some (lit "b:2").
Proof.
  assert (Hdup : forall n, strdup_ok sample_world n = true)
    by (intros n; reflexivity).
  split; [exact Hdup|].
  exact (last_H_option_wins sample_world
           [lit "iotsend"; lit "-H"; lit "a:1"; lit "-Hb:2"] Hdup).
Defined.

(** X10: the file name is the first operand getopt leaves, further
    operands are ignored: after ProcessOptions the field holds a copy
    of it when strdup finds memory, and whatever file a run opens is
    that operand. *)
Theorem first_operand_is_file (w : World) (argv : list cstring) :
  exists m1 r m,
    ProcessOptions w AddrState (init_machine argv) = Some (0%Z, m1) /\
    run w argv = Some (r, m) /\
    ((forall n, strdup_ok w n = true) ->
     fileName (state m1) = operands w argv !! 0) /\
    (forall p fd,
        In (EvOpen p fd) (trace m) ->
        operands w argv !! 0 = Some p /\ fd = sys_open w p).
Proof.
  destruct (run_full w argv) as (m1 & m & Hpo & Hrun & Hst & _ & Ht).
  destruct (ProcessOptions_spec w (init_machine argv))
    as (m1' & Hpo' & _ & _ & _ & _ & (k & Hf)).
  assert (m1' = m1) as -> by congruence.
  destruct (ProcessOptions_config w argv m1 Hpo) as (_ & Hok & _).
  eexists m1, _, m. split; [done|]. split; [exact Hrun|]. split.
  - intros Hdup. by destruct (Hok Hdup).
  - intros p fd. rewrite Ht, in_app_iff. intros [Hin|Hin].
    { by destruct (In_stderr_inv _ _ Hst Hin). }
    destruct Hin as [H|Hin]; [discriminate H|].
    destruct (client_create w) as [hd|]; [|done].
    destruct Hin as [H|Hin]; [discriminate H|].
    apply in_app_iff in Hin as [Hin|[H|[]]]; [|discriminate H].
    destruct (SendMessage_events_shape w (set_hIoTClient (Some hd) (state m1)))
      as (_ & _ & Hopen & _).
    destruct (Hopen p fd Hin) as [Hp ->]. split; [|done].
    change (fileName (set_hIoTClient (Some hd) (state m1)))
      with (fileName (state m1)) in Hp.
    cbn zeta in Hf. rewrite Hp in Hf.
    change (gopt (init_machine argv)) with (getopt_init argv) in Hf.
    unfold operands. cbn zeta. rewrite lookup_drop, Nat.add_0_r.
    destruct (decide _) in Hf; [|done].
    by destruct (strdup_ok w k).
Qed.



(** X12: the help option does not end the program: with [-h] among the
    options the usage message is written and the run goes on to create
    the client and, without an operand, to stream standard input. *)
Theorem help_does_not_stop (w : World) (argv : list cstring) (hd : handle) :
  In "h" (scanned_options w argv) ->
  client_create w = Some hd ->
  operands w argv = [] ->
  exists r m diag rest t res,
    run w argv = Some (r, m) /\
    trace m = diag ++ EvCreate (Some hd) :: rest /\
    In (EvStderr (usage_text (progname (getopt_init argv)))) diag /\
    In (EvStream (Some hd) t STDIN_FILENO res) rest.
Proof.
  intros Hh Hc Hops.
  destruct (run_full w argv) as (m1 & m & Hpo & Hrun & Hst & Hcnt & Ht).
  destruct (ProcessOptions_spec w (init_machine argv))
    as (m1' & Hpo' & _ & _ & _ & _ & (k & Hf)).
  assert (m1' = m1) as -> by congruence.
  apply operands_nil_optind in Hops. cbn zeta in Hops, Hf.
  change (gopt (init_machine argv)) with (getopt_init argv) in Hf.
  destruct (decide _) in Hf; [done|].
  change (fileName (state (init_machine argv))) with (@None cstring) in Hf.
  rewrite Hc in Ht.
  eexists _, m, (trace m1), _, _, _. split; [exact Hrun|].
  split; [exact Ht|]. split.
  - apply (count_occ_In event_eq_dec). rewrite Hcnt.
    by apply (count_occ_In ascii_dec).
  - right. apply in_app_iff. left. unfold SendMessage_events. cbn.
    rewrite Hf. left. reflexivity.
Qed.

Lemma help_does_not_stop_witness :
  In "h" (scanned_options sample_world [lit "iotsend"; lit "-h"]) /\
  exists r m diag rest t res,
    run sample_world [lit "iotsend"; lit "-h"] = Some (r, m) /\
    trace m = diag ++ EvCreate (Some 1) :: rest /\
    In (EvStderr (usage_text (progname (getopt_init [lit "iotsend"; lit "-h"]))))
       diag /\
    In (EvStream (Some 1) t STDIN_FILENO res) rest.
Proof.
  assert (Hh : In "h" (scanned_options sample_world [lit "iotsend"; lit "-h"]))
    by (vm_compute; auto).
  split; [exact Hh|].
  exact (help_does_not_stop sample_world [lit "iotsend"; lit "-h"] 1
           Hh eq_refl eq_refl).
Defined.

(** X13: ProcessOptions comes back from every command line with 0, also
    when getopt met an unknown option or an [-H] without argument (its
    [result = EINVAL] is never returned); it writes to standard error
    only and leaves the client handle alone, and with a NULL state
    pointer it does nothing. *)
Theorem ProcessOptions_returns_zero (w : World) (argv : list cstring)
    (pState : pIOTSendState) :
  exists m,
    ProcessOptions w pState (init_machine argv) = Some (0%Z, m) /\
    Forall is_stderr (trace m) /\
    hIoTClient (state m) = None /\
    (pState = NullState -> m = init_machine argv).
Proof.
  destruct pState.
  - exists (init_machine argv). repeat split. constructor.
  - destruct (ProcessOptions_spec w (init_machine argv))
      as (m & Hpo & _ & Hcl & (evs & Ht & Hst & _) & _).
    change (trace (init_machine argv) ++ evs) with evs in Ht.
    exists m. split; [done|]. split; [by rewrite Ht|]. split; [done|].
    discriminate.
Qed.

(** * Runs with a file that is missing or too large *)

Section Texts.
Variable w : World.

Lemma getopt_step_long_text (g g' : GetoptState) (r : option ascii)
    (d : list event) :
  getopt_step w options g = (r, g', d) -> Forall long_text d.
Proof.
  intros Hstep. apply getopt_step_argv0 in Hstep as [_ Hd].
  apply Forall_forall. intros e He%list_elem_of_In.
  destruct (Hd _ He) as [c [->| ->]]; eexists; (split; [reflexivity|]);
    rewrite !length_app; change (length file_not_found) with 15;
    cbn [length lit list_ascii_of_string]; lia.
Qed.

Lemma usage_events_long_text (g : GetoptState) :
  Forall long_text (usage_events g).
Proof.
  unfold usage_events. destruct (go_argv0 g) as [a0|]; [|constructor].
  repeat constructor. eexists. split; [reflexivity|].
  unfold usage_text. rewrite !length_app.
  change (length file_not_found) with 15.
  cbn [length lit list_ascii_of_string]. lia.
Qed.

Lemma ProcessOptions_loop_long_text (fuel : nat) :
  forall m m' : Machine,
    ProcessOptions_loop w fuel m = Some m' ->
    exists evs, trace m' = trace m ++ evs /\ Forall long_text evs.
Proof.
  induction fuel as [|fuel IH]; intros m m'; [done|].
  rewrite ProcessOptions_loop_S.
  destruct (getopt_step w options (gopt m)) as [[[c|] g] d] eqn:Hstep.
  - intros Hloop. apply IH in Hloop as (evs & Ht & Hlong).
    destruct (loop_body_effect w m c g d Hstep) as (_ & _ & _ & Et & _).
    exists (d ++ (if decide (c = "h") then usage_events g else []) ++ evs).
    split; [by rewrite Ht, Et, <- !app_assoc|].
    apply Forall_app. split; [by eapply getopt_step_long_text|].
    apply Forall_app. split; [|done].
    destruct (decide (c = "h")); [apply usage_events_long_text|constructor].
  - intros [= <-]. exists d. split; [done|]. by eapply getopt_step_long_text.
Qed.

(** ProcessOptions never writes [File not found]. *)
Lemma ProcessOptions_no_file_not_found (argv : list cstring) (m1 : Machine)
    (r : Z) :
  ProcessOptions w AddrState (init_machine argv) = Some (r, m1) ->
  ~ In (EvStderr file_not_found) (trace m1).
Proof.
  unfold ProcessOptions.
  destruct (ProcessOptions_loop w _ (init_machine argv)) as [m'|] eqn:Hloop;
    [|done].
  apply ProcessOptions_loop_long_text in Hloop as (evs & Ht & Hlong).
  change (trace (init_machine argv) ++ evs) with evs in Ht.
  assert (Hno : ~ In (EvStderr file_not_found) (trace m')).
  { rewrite Ht. intros Hin%list_elem_of_In.
    rewrite Forall_forall in Hlong. destruct (Hlong _ Hin) as (t & [= <-] & Hlt).
    lia. }
  destruct (decide _); [|by intros [= _ <-]].
  destruct (argV (gopt m') !! optind (gopt m')); [|by intros [= _ <-]].
  unfold strdup, set_state. cbn. by intros [= _ <-].
Qed.

End Texts.

(** A run whose first operand is stored as the file name: the events of
    [SendMessage] are those of that file. *)
Lemma run_with_operand (w : World) (argv : list cstring)
    (path : cstring) (rest : list cstring) :
  operands w argv = path :: rest ->
  (forall n, strdup_ok w n = true) ->
  exists m1 m,
    ProcessOptions w AddrState (init_machine argv) = Some (0%Z, m1) /\
    run w argv =
      Some (match client_create w with Some _ => EOK w | None => EINVAL end, m) /\
    Forall is_stderr (trace m1) /\
    ~ In (EvStderr file_not_found) (trace m1) /\
    fileName (state m1) = Some path /\
    trace m = trace m1 ++ EvCreate (client_create w) ::
      match client_create w with
      | Some hd =>
          EvSetVerbose hd (verbose (state m1)) ::
          (size_check_events w path ++
           EvOpen path (sys_open w path) ::
           (if decide (sys_open w path <> -1)%Z
            then [EvStream (Some hd) (header_text (state m1)) (sys_open w path)
                    (client_stream w (Some hd) (header_text (state m1))
                       (sys_open w path));
                  EvClose (sys_open w path)]
            else [EvStderr file_not_found])) ++
          [EvClientClose hd]
      | None => []
      end.
Proof.
  intros Hops Hdup.
  destruct (run_full w argv) as (m1 & m & Hpo & Hrun & Hst & _ & Ht).
  destruct (ProcessOptions_config w argv m1 Hpo) as (_ & Hok & _).
  destruct (Hok Hdup) as [_ Hf]. rewrite Hops in Hf. cbn in Hf.
  exists m1, m. split; [done|]. split; [done|]. split; [done|].
  split; [by eapply ProcessOptions_no_file_not_found|]. split; [done|].
  rewrite Ht. destruct (client_create w) as [hd|]; [|done].
  unfold SendMessage_events, header_text. cbn. by rewrite Hf.
Qed.

(** C4, as the code has it: when the file name of the command line is
    stored and the file cannot be opened, the run makes no stream call
    and closes nothing, and [File not found] is written to standard
    error exactly when the client was created: without a client
    [SendMessage] is not called. *)
Theorem unopened_file_run (w : World) (argv : list cstring)
    (path : cstring) (rest : list cstring) :
  operands w argv = path :: rest ->
  (forall n, strdup_ok w n = true) ->
  sys_open w path = (-1)%Z ->
  exists r m,
    run w argv = Some (r, m) /\
    (forall h t fd res, ~ In (EvStream h t fd res) (trace m)) /\
    (forall fd, ~ In (EvClose fd) (trace m)) /\
    (In (EvStderr file_not_found) (trace m) <-> client_create w <> None).
Proof.
  intros Hops Hdup Hopen.
  destruct (run_with_operand w argv path rest Hops Hdup)
    as (m1 & m & _ & Hrun & Hst & Hno & _ & Ht).
  rewrite Hopen in Ht.
  destruct (decide (-1 <> -1)%Z) as [Hne|_] in Ht; [done|].
  assert (Hw := size_check_events_stderr w path).
  assert (Hinv : forall e, In e (trace m) ->
    (exists t, e = EvStderr t) \/ (exists c, e = EvCreate c) \/
    (exists hd v, e = EvSetVerbose hd v) \/ e = EvOpen path (-1) \/
    (exists hd, e = EvClientClose hd)).
  { intros e. rewrite Ht, in_app_iff. intros [Hin|[<-|Hin]].
    - left. by apply (In_stderr_inv _ _ Hst).
    - right. left. eauto.
    - destruct (client_create w) as [hd|]; [|done].
      destruct Hin as [<-|Hin]; [right; right; left; eauto|].
      apply in_app_iff in Hin as [Hin|[<-|[]]]; [|by repeat right; eauto].
      apply in_app_iff in Hin as [Hin|[<-|[<-|[]]]].
      + left. by apply (In_stderr_inv _ _ Hw).
      + auto.
      + left. eauto. }
  eexists _, m. split; [exact Hrun|]. split; [|split].
  - intros h t fd res Hin.
    destruct (Hinv _ Hin) as [[? H]|[[? H]|[(? & ? & H)|[H|[? H]]]]];
      discriminate H.
  - intros fd Hin.
    destruct (Hinv _ Hin) as [[? H]|[[? H]|[(? & ? & H)|[H|[? H]]]]];
      discriminate H.
  - rewrite Ht, in_app_iff. split.
    + intros [Hin|Hin]; [done|]. destruct (client_create w); [done|].
      destruct Hin as [H|[]]. discriminate H.
    + intros Hc. right. destruct (client_create w) as [hd|]; [|done].
      right. right. apply in_app_iff. left. apply in_app_iff. right.
      simpl. auto.
Qed.

(** [iotsend gone.txt] in the sample world. *)
Lemma unopened_file_run_witness :
  operands sample_world [lit "iotsend"; lit "gone.txt"] = [lit "gone.txt"] /\
  exists r m,
    run sample_world [lit "iotsend"; lit "gone.txt"] = Some (r, m) /\
    (forall h t fd res, ~ In (EvStream h t fd res) (trace m)) /\
    (forall fd, ~ In (EvClose fd) (trace m)) /\
    (In (EvStderr file_not_found) (trace m) <->
     client_create sample_world <> None).
Proof.
  split; [reflexivity|].
  exact (unopened_file_run sample_world [lit "iotsend"; lit "gone.txt"]
           (lit "gone.txt") [] eq_refl (fun _ => eq_refl) eq_refl).
Defined.

(** C4 as stated fails: [gone.txt] cannot be opened, and yet the run
    without a client reports nothing, and the run without memory for
    strdup streams standard input. *)
Lemma unopened_file_unreported :
  sys_open no_client_world (lit "gone.txt") = (-1)%Z /\
  (exists m,
     run no_client_world [lit "iotsend"; lit "gone.txt"] = Some (EINVAL, m) /\
     trace m = [EvCreate None] /\
     ~ In (EvStderr file_not_found) (trace m)) /\
  sys_open no_memory_world (lit "gone.txt") = (-1)%Z /\
  (exists m,
     run no_memory_world [lit "iotsend"; lit "gone.txt"] = Some (0%Z, m) /\
     trace m = [EvCreate (Some 1); EvSetVerbose 1 false;
                EvStream (Some 1) default_headers STDIN_FILENO 5;
                EvClientClose 1]).
Proof.
  split; [vm_compute; reflexivity|]. split.
  - eexists. split; [vm_compute; reflexivity|].
    split; [vm_compute; reflexivity|]. intros [H|[]]. discriminate H.
  - split; [vm_compute; reflexivity|].
    eexists. split; vm_compute; reflexivity.
Qed.

(** Option parsing does not look at the file system. *)
Lemma ProcessOptions_without_stat (w : World) (p : pIOTSendState) (m : Machine) :
  ProcessOptions (without_stat w) p m = ProcessOptions w p m.
Proof. reflexivity. Qed.

Lemma operands_without_stat (w : World) (argv : list cstring) :
  operands (without_stat w) argv = operands w argv.
Proof. reflexivity. Qed.

(** C5, as the code has it: in a run with the client created and the
    file name stored, a file that stat reports larger than the message
    limit draws the warning and is then opened like any other file:
    behind the warning the run is the run without the size check; a
    descriptor that open returns is passed to the stream call and
    closed, and a refused open is reported with nothing sent. *)
Theorem oversized_file_run (w : World) (argv : list cstring)
    (path : cstring) (rest : list cstring) (hd : handle) (st_size : Z) :
  operands w argv = path :: rest ->
  (forall n, strdup_ok w n = true) ->
  client_create w = Some hd ->
  sys_stat w path = Some st_size ->
  (st_size > MAX_IOT_MSG_SIZE w)%Z ->
  exists r m m0 diag v t,
    let fd := sys_open w path in
    let tail :=
      EvOpen path fd ::
      (if decide (fd <> -1)%Z
       then [EvStream (Some hd) t fd (client_stream w (Some hd) t fd);
             EvClose fd]
       else [EvStderr file_not_found]) ++
      [EvClientClose hd] in
    run w argv = Some (r, m) /\
    run (without_stat w) argv = Some (r, m0) /\
    Forall is_stderr diag /\
    trace m = diag ++ [EvCreate (Some hd); EvSetVerbose hd v;
                       EvStderr size_warning] ++ tail /\
    trace m0 = diag ++ [EvCreate (Some hd); EvSetVerbose hd v] ++ tail.
Proof.
  intros Hops Hdup Hc Hstat Hbig.
  destruct (run_with_operand w argv path rest Hops Hdup)
    as (m1 & m & Hpo & Hrun & Hst & _ & _ & Ht).
  destruct (run_with_operand (without_stat w) argv path rest Hops Hdup)
    as (m1' & m0 & Hpo0 & Hrun0 & _ & _ & _ & Ht0).
  rewrite ProcessOptions_without_stat in Hpo0.
  assert (m1' = m1) as -> by congruence.
  cbn [client_create without_stat EOK] in Hrun0, Ht0.
  rewrite Hc in Hrun, Ht, Hrun0, Ht0.
  assert (Hw : size_check_events w path = [EvStderr size_warning]).
  { unfold size_check_events. rewrite Hstat. by rewrite bool_decide_eq_true_2. }
  rewrite Hw in Ht.
  change (size_check_events (without_stat w) path) with (@nil event) in Ht0.
  change (sys_open (without_stat w) path) with (sys_open w path) in Ht0.
  change (client_stream (without_stat w)) with (client_stream w) in Ht0.
  exists (EOK w), m, m0, (trace m1), (verbose (state m1)),
    (header_text (state m1)).
  cbn zeta. split; [done|]. split; [done|]. split; [done|].
  split; [by rewrite Ht|by rewrite Ht0].
Qed.

(** [iotsend big.bin] in the sample world. *)
Lemma oversized_file_run_witness :
  operands sample_world [lit "iotsend"; lit "big.bin"] = [lit "big.bin"] /\
  (300000 > MAX_IOT_MSG_SIZE sample_world)%Z /\
  exists r m diag v t,
    run sample_world [lit "iotsend"; lit "big.bin"] = Some (r, m) /\
    trace m = diag ++ [EvCreate (Some 1); EvSetVerbose 1 v;
                       EvStderr size_warning; EvOpen (lit "big.bin") 3;
                       EvStream (Some 1) t 3 5; EvClose 3; EvClientClose 1].
Proof.
  split; [reflexivity|]. split; [reflexivity|].
  destruct (oversized_file_run sample_world [lit "iotsend"; lit "big.bin"]
              (lit "big.bin") [] 1 300000
              eq_refl (fun _ => eq_refl) eq_refl eq_refl eq_refl)
    as (r & m & m0 & diag & v & t & Hrun & _ & _ & Ht & _).
  exists r, m, diag, v, t. split; [exact Hrun|exact Ht].
Defined.

(** C5 as stated fails: [big.bin] exists and is larger than the limit,
    and yet, when the open is refused, the run behind the warning
    reports the file and streams nothing, and a run without a client
    does not even warn. *)
Lemma oversized_file_unsent :
  sys_stat locked_world (lit "big.bin") = Some 300000%Z /\
  (300000 > MAX_IOT_MSG_SIZE locked_world)%Z /\
  (exists m,
     run locked_world [lit "iotsend"; lit "big.bin"] = Some (0%Z, m) /\
     trace m = [EvCreate (Some 1); EvSetVerbose 1 false;
                EvStderr size_warning; EvOpen (lit "big.bin") (-1);
                EvStderr file_not_found; EvClientClose 1]) /\
  sys_stat no_client_world (lit "big.bin") = Some 300000%Z /\
  (exists m,
     run no_client_world [lit "iotsend"; lit "big.bin"] = Some (EINVAL, m) /\
     trace m = [EvCreate None]).
Proof.
  split; [vm_compute; reflexivity|]. split; [reflexivity|]. split.
  - eexists. split; vm_compute; reflexivity.
  - split; [vm_compute; reflexivity|]. eexists. split; vm_compute; reflexivity.
Qed.
